(** * Cross-store conversation search: the route handler of
    [src/app/api/search/route.ts], embedded in Rocq.

    The handler reads JSON documents out of SQLite stores and walks them
    with dynamically typed JavaScript.  The embedding keeps that shape:
    JSON documents are values of an untyped [value] type, property access
    and method calls may throw, and [try]/[catch] blocks are explicit.
    The pure parts of the command palette that calls the handler (the
    component [GlobalSearch]) are embedded beside it.

    Modelling conventions
    - JavaScript strings are [string]s of 8-bit characters; [toLowerCase]
      and [trim] act on the ASCII letters and ASCII white space.
    - JavaScript numbers are integers ([Z]): lengths, indices and epoch
      timestamps.  [NaN] is written [None] where it can arise.
    - [JSON.parse], [Date.parse] and the string-to-number conversion are
      parameters of the development (section variables).
    - Plain objects used as dictionaries ([Record<string, T>]) are [gmap]s;
      properties inherited from [Object.prototype] are not modelled. *)

From Stdlib Require Import ZArith Ascii String List Bool Lia Sorted.
From stdpp Require Import base option list strings gmap pretty.

Local Open Scope Z_scope.
Local Set Warnings "-register-all".

(** ** JavaScript values and exceptions *)

Module JS.

(** A JSON document after [JSON.parse], plus [undefined]. An object keeps
    its properties in the order in which JavaScript enumerates them;
    [JSON.parse] yields distinct keys. *)
Inductive value : Type :=
| VUndef
| VNull
| VBool (b : bool)
| VNum (n : Z)
| VStr (s : string)
| VArr (items : list value)
| VObj (props : list (string * value)).

(** The result of running code that may throw. *)
Inductive outcome (A : Type) : Type :=
| Ret (a : A)
| Throw.
Arguments Ret {A} a.
Arguments Throw {A}.

Definition bind {A B : Type} (m : outcome A) (k : A → outcome B) : outcome B :=
  match m with
  | Ret a => k a
  | Throw => Throw
  end.

(** [try { m } catch { h }] *)
Definition try_catch {A : Type} (m : outcome A) (h : A) : A :=
  match m with
  | Ret a => a
  | Throw => h
  end.

Declare Scope js_scope.
Delimit Scope js_scope with js.
Notation "'let*' x ':=' m 'in' k" := (bind m (fun x => k))
  (at level 10, x name, m at level 100, k at level 200) : js_scope.
Local Open Scope js_scope.

(** *** Strings *)

Definition lower_char (c : ascii) : ascii :=
  let n := nat_of_ascii c in
  if (65 <=? n)%nat && (n <=? 90)%nat then ascii_of_nat (n + 32) else c.

(** [s.toLowerCase()] *)
Fixpoint toLowerCase (s : string) : string :=
  match s with
  | EmptyString => EmptyString
  | String c s' => String (lower_char c) (toLowerCase s')
  end.

(** [s.startsWith(p)] *)
Fixpoint startsWith (s p : string) : bool :=
  match p, s with
  | EmptyString, _ => true
  | String _ _, EmptyString => false
  | String a p', String b s' => if Ascii.eqb a b then startsWith s' p' else false
  end.

(** [s.indexOf(sub)]: the first position at which [sub] occurs, or [-1]. *)
Fixpoint indexOf (s sub : string) : Z :=
  if startsWith s sub then 0
  else match s with
       | EmptyString => -1
       | String _ s' => let r := indexOf s' sub in if r <? 0 then -1 else 1 + r
       end.

(** [s.includes(sub)] *)
Fixpoint includes (s sub : string) : bool :=
  startsWith s sub ||
  match s with
  | EmptyString => false
  | String _ s' => includes s' sub
  end.

Fixpoint drop_chars (n : nat) (s : string) : string :=
  match n, s with
  | O, _ => s
  | S _, EmptyString => EmptyString
  | S n', String _ s' => drop_chars n' s'
  end.

Fixpoint take_chars (n : nat) (s : string) : string :=
  match n, s with
  | O, _ => EmptyString
  | S _, EmptyString => EmptyString
  | S n', String c s' => String c (take_chars n' s')
  end.

(** [s.slice(start, end)], with JavaScript's treatment of negative and
    out-of-range indices. *)
Definition slice (s : string) (start stop : Z) : string :=
  let len := Z.of_nat (String.length s) in
  let from := if start <? 0 then Z.max (len + start) 0 else Z.min start len in
  let to := if stop <? 0 then Z.max (len + stop) 0 else Z.min stop len in
  take_chars (Z.to_nat (to - from)) (drop_chars (Z.to_nat from) s).

(** [s.substring(start, end)]: negative indices count as 0 and the two
    indices are swapped when out of order. *)
Definition substring (s : string) (start stop : Z) : string :=
  let len := Z.of_nat (String.length s) in
  let a := Z.min (Z.max start 0) len in
  let b := Z.min (Z.max stop 0) len in
  take_chars (Z.to_nat (Z.max a b - Z.min a b)) (drop_chars (Z.to_nat (Z.min a b)) s).

(** [s.replace(pat, rep)] with a string pattern: only the first occurrence
    is replaced. *)
Fixpoint replace (s pat rep : string) : string :=
  if startsWith s pat then rep +:+ drop_chars (String.length pat) s
  else match s with
       | EmptyString => EmptyString
       | String c s' => String c (replace s' pat rep)
       end.

(** [s.split(sep)] for a one-character separator; never the empty list. *)
Fixpoint split (sep : ascii) (s : string) : list string :=
  match s with
  | EmptyString => [EmptyString]
  | String c s' =>
      if Ascii.eqb c sep then EmptyString :: split sep s'
      else match split sep s' with
           | [] => [String c EmptyString]
           | w :: ws => String c w :: ws
           end
  end.

Fixpoint trimStart (s : string) : string :=
  match s with
  | EmptyString => EmptyString
  | String c s' => if Ascii.is_space c then trimStart s' else s
  end.

Fixpoint rev_string (acc s : string) : string :=
  match s with
  | EmptyString => acc
  | String c s' => rev_string (String c acc) s'
  end.

(** [s.trim()] *)
Definition trim (s : string) : string :=
  rev_string EmptyString (trimStart (rev_string EmptyString (trimStart s))).

Definition nonEmpty (s : string) : bool :=
  match s with
  | EmptyString => false
  | String _ _ => true
  end.

(** [arr.pop()] on a freshly built array: its last element, [undefined]
    ([None]) when the array is empty. *)
Definition pop {A : Type} (l : list A) : option A := last l.

(** *** Dynamic typing *)

(** [ToBoolean] *)
Definition truthy (v : value) : bool :=
  match v with
  | VUndef | VNull => false
  | VBool b => b
  | VNum n => negb (n =? 0)
  | VStr s => nonEmpty s
  | VArr _ | VObj _ => true
  end.

(** [a || b] *)
Definition or_else (a b : value) : value := if truthy a then a else b.

Fixpoint assoc (k : string) (props : list (string * value)) : value :=
  match props with
  | [] => VUndef
  | (k', v) :: rest => if String.eqb k k' then v else assoc k rest
  end.

(** [v.k] for the property names the handler reads: reading a property of
    [undefined] or [null] throws; strings and arrays have a [length];
    any other missing property is [undefined]. *)
Definition getp (v : value) (k : string) : outcome value :=
  match v with
  | VUndef | VNull => Throw
  | VObj props => Ret (assoc k props)
  | VStr s => Ret (if String.eqb k "length" then VNum (Z.of_nat (String.length s)) else VUndef)
  | VArr items => Ret (if String.eqb k "length" then VNum (Z.of_nat (length items)) else VUndef)
  | VBool _ | VNum _ => Ret VUndef
  end.

Definition isArray (v : value) : bool :=
  match v with
  | VArr _ => true
  | _ => false
  end.

(** The elements of an array; used after [Array.isArray(v)]. *)
Definition items_of (v : value) : list value :=
  match v with
  | VArr items => items
  | _ => []
  end.

(** [typeof v === 'object'] *)
Definition typeof_object (v : value) : bool :=
  match v with
  | VNull | VArr _ | VObj _ => true
  | _ => false
  end.

Fixpoint chars (s : string) : list value :=
  match s with
  | EmptyString => []
  | String c s' => VStr (String c EmptyString) :: chars s'
  end.

(** The elements visited by [for (const x of v)]: arrays and strings are
    iterable, anything else throws. *)
Definition iterate (v : value) : outcome (list value) :=
  match v with
  | VArr items => Ret items
  | VStr s => Ret (chars s)
  | _ => Throw
  end.

Fixpoint join (sep : string) (l : list string) : string :=
  match l with
  | [] => EmptyString
  | [s] => s
  | s :: rest => s +:+ sep +:+ join sep rest
  end.

(** [ToString]: what string concatenation, template literals and property
    keys make of a value. *)
Fixpoint ToString (v : value) : string :=
  match v with
  | VUndef => "undefined"
  | VNull => "null"
  | VBool b => if b then "true" else "false"
  | VNum n => pretty n
  | VStr s => s
  | VArr items =>
      join "," (map (fun x => match x with
                              | VUndef | VNull => EmptyString
                              | _ => ToString x
                              end) items)
  | VObj _ => "[object Object]"
  end.

(** A method of [String.prototype] called on a value: only a string has
    it; on any other JSON value the call throws. *)
Definition as_string (v : value) : outcome string :=
  match v with
  | VStr s => Ret s
  | _ => Throw
  end.

Definition seq_keys (n : nat) : list string := map (fun i : nat => pretty i) (seq 0 n).

(** [Object.keys(v)] of a truthy value. *)
Definition Object_keys (v : value) : list string :=
  match v with
  | VObj props => map fst props
  | VArr items => seq_keys (length items)
  | VStr s => seq_keys (String.length s)
  | _ => []
  end.

(** [a === b] for two values that are not the same object: primitives
    are compared by value, and two distinct arrays or objects are never
    identical. *)
Definition strict_equals (a b : value) : bool :=
  match a, b with
  | VUndef, VUndef => true
  | VNull, VNull => true
  | VBool x, VBool y => Bool.eqb x y
  | VNum x, VNum y => x =? y
  | VStr x, VStr y => String.eqb x y
  | _, _ => false
  end.

(** [for (const x of xs) { body }] where the body may [return] out of the
    enclosing function ([Some r]) or fall through ([None]). *)
Fixpoint for_return {A R : Type} (xs : list A) (body : A → outcome (option R))
    : outcome (option R) :=
  match xs with
  | [] => Ret None
  | x :: rest =>
      let* r := body x in
      match r with
      | Some y => Ret (Some y)
      | None => for_return rest body
      end
  end.

(** [for (const x of xs) { acc = body(acc, x) }] *)
Fixpoint for_acc {A B : Type} (xs : list A) (acc : B) (body : B → A → outcome B)
    : outcome B :=
  match xs with
  | [] => Ret acc
  | x :: rest => let* acc' := body acc x in for_acc rest acc' body
  end.

End JS.

Import JS.
Local Open Scope js_scope.

(** ** Data of the handler *)

(** A workspace directory with a descriptor file. The handler also stores
    the descriptor's path ([workspaceJsonPath]); nothing reads it, and it
    is left out. *)
Record WorkspaceEntry : Type := {
  name : string;
  folder : string
}.

Inductive kind : Type := chat | composer.

(** [interface SearchResult] (lines 8-16). [chatId] and [timestamp] are
    copied from the stored document as they are. *)
Record SearchResult : Type := {
  workspaceId : string;
  workspaceFolder : option string;
  chatId : value;
  chatTitle : string;
  timestamp : value;
  matchingText : string;
  type : kind
}.

(** ** The environment of a request *)

(** A row of the key/value table of the unified store. *)
Record Row : Type := {
  key : string;
  val : string
}.

(** The unified store [globalStorage/state.vscdb]: whether
    [new Database] succeeds, and what each of the four queries returns
    (or that it throws). A single-row query ([get]) yields the [value]
    column of the row, if there is one. *)
Record GlobalStore : Type := {
  g_opens : bool;
  g_bubbleRows : outcome (list Row);
  g_contextRows : outcome (list Row);
  g_composerRows : outcome (list Row);
  g_chatData : outcome (option string)
}.

(** A legacy per-workspace store [<workspace>/state.vscdb]. *)
Record WorkspaceStore : Type := {
  s_opens : bool;
  s_chatData : outcome (option string);
  s_composerData : outcome (option string)
}.

Record Dirent : Type := {
  d_name : string;
  d_isDirectory : bool
}.

(** What the file system and the clock hold when the request arrives.
    [<root>] is the directory that [resolveWorkspacePath] returns (that
    function is not part of these sources), [w_readdir] its listing.
    [w_workspaceJson n] is the content of [<root>/n/workspace.json]:
    [None] when the file does not exist, [Some Throw] when reading it
    fails. [w_store n] is the store at [<root>/n/state.vscdb]. [w_now] is
    [new Date().toISOString()]. *)
Record World : Type := {
  w_readdir : outcome (list Dirent);
  w_workspaceJson : string → option (outcome string);
  w_globalStore : option GlobalStore;
  w_store : string → option WorkspaceStore;
  w_now : string
}.

(** The query parameters [q] and [type] of the request URL. *)
Record Request : Type := {
  q : option string;
  type_param : option string
}.

(** [NextResponse.json(body, { status })] *)
Record Response : Type := {
  status : Z;
  error : option string;
  results : option (list SearchResult)
}.

Inductive store_id : Type :=
| GlobalDb
| WorkspaceDb (workspace : string).

(** What the handler does to the outside world, in order. *)
Inductive event : Type :=
| EvReaddir
| EvOpen (db : store_id)
| EvClose (db : store_id).

Section Search.

(** ** Built-in functions, taken as parameters *)

(** [JSON.parse]: [None] when it throws a [SyntaxError]. *)
Variable JSON_parse : string → option value.

(** [new Date(s).getTime()]: [None] when the date is invalid ([NaN]). *)
Variable Date_parse : string → option Z.

(** [Number(s)] for a string [s]: [None] for [NaN]. *)
Variable StringToNumber : string → option Z.

(** ** Text extraction (lines 18-51) *)

(** [JSON.parse(v)]: the argument is converted to a string first. *)
Definition parse (v : value) : outcome value :=
  match JSON_parse (ToString v) with
  | Some d => Ret d
  | None => Throw
  end.

(** The nesting depth of a document bounds the recursion below. *)
Fixpoint depth (v : value) : nat :=
  match v with
  | VArr items => S (fold_right (fun x d => Nat.max (depth x) d) O items)
  | VObj props => S (fold_right (fun kv d => Nat.max (depth (snd kv)) d) O props)
  | _ => O
  end.

(** [extractTextFromRichText(children)], with the recursion bounded by
    [fuel]. *)
Fixpoint extractTextFromRichText_rec (fuel : nat) (children : value) : outcome string :=
  match fuel with
  | O => Throw
  | S fuel' =>
      let* kids := iterate children in
      for_acc kids EmptyString (fun text child =>
        let* ty := getp child "type" in
        let* tx := getp child "text" in
        if strict_equals ty (VStr "text") && truthy tx then
          Ret (text +:+ ToString tx)
        else
          let* sub := getp child "children" in
          if truthy sub && isArray sub then
            let* inner := extractTextFromRichText_rec fuel' sub in
            Ret (text +:+ inner)
          else Ret text)
  end.

(** The fuel [S (depth children)] is always enough
    ([extractTextFromRichText_rec_fuel] below). *)
Definition extractTextFromRichText (children : value) : outcome string :=
  extractTextFromRichText_rec (S (depth children)) children.

(** The body of the [try] block of [extractTextFromBubble] (lines 27-30),
    entered with [text] still empty. *)
Definition parseRichText (richText : value) : outcome string :=
  let* richTextData := parse richText in
  let* root := getp richTextData "root" in
  let* kids := (if truthy root then getp root "children" else Ret VUndef) in
  if truthy root && truthy kids then extractTextFromRichText kids
  else Ret EmptyString.

(** [extractTextFromBubble(bubble)] *)
Definition extractTextFromBubble (bubble : value) : outcome string :=
  let* t := getp bubble "text" in
  let* nonBlank := (if truthy t then let* s := as_string t in Ret (nonEmpty (trim s))
                    else Ret false) in
  let text := if nonBlank then ToString t else EmptyString in
  let* richText := getp bubble "richText" in
  if negb (nonEmpty text) && truthy richText then
    Ret (try_catch (parseRichText richText) EmptyString)
  else Ret text.

(** ** Project resolution (lines 53-130) *)

(** [getProjectFromFilePath(filePath, workspaceEntries)]; calling
    [replace] on a [filePath] that is not a string throws. *)
Definition getProjectFromFilePath (filePath : value) (workspaceEntries : list WorkspaceEntry)
    : outcome (option string) :=
  let* path := as_string filePath in
  let normalizedPath := replace path "file://" "" in
  for_return workspaceEntries (fun entry =>
    if nonEmpty (folder entry) then
      let workspacePath := replace (folder entry) "file://" "" in
      if startsWith normalizedPath workspacePath then Ret (Some (name entry))
      else Ret None
    else Ret None).

(** [const projectId = getProjectFromFilePath(p, ...); if (projectId) return projectId] *)
Definition projectOfPath (workspaceEntries : list WorkspaceEntry) (filePath : value)
    : outcome (option string) :=
  let* projectId := getProjectFromFilePath filePath workspaceEntries in
  match projectId with
  | Some id => if nonEmpty id then Ret (Some id) else Ret None
  | None => Ret None
  end.

(** Run [m]; unless it returned out of the function, go on with [k]. *)
Definition or_next {R : Type} (m k : outcome (option R)) : outcome (option R) :=
  let* r := m in
  match r with
  | Some y => Ret (Some y)
  | None => k
  end.

(** [ToNumber], and the comparison [v > 0]. *)
Definition ToNumber (v : value) : option Z :=
  match v with
  | VUndef => None
  | VNull => Some 0
  | VBool b => Some (if b then 1 else 0)
  | VNum n => Some n
  | VStr s => StringToNumber s
  | VArr _ | VObj _ => StringToNumber (ToString v)
  end.

Definition gt0 (v : value) : bool :=
  match ToNumber v with
  | Some n => 0 <? n
  | None => false
  end.

(** Lines 76-82: the project layouts recorded for the conversation. *)
Definition fromProjectLayouts (composerId : value)
    (projectLayoutsMap : gmap string (list value))
    (projectNameToWorkspaceId : gmap string string) : outcome (option string) :=
  let projectLayouts := default [] (projectLayoutsMap !! ToString composerId) in
  for_return projectLayouts (fun projectName =>
    match projectNameToWorkspaceId !! ToString projectName with
    | Some workspaceId => if nonEmpty workspaceId then Ret (Some workspaceId) else Ret None
    | None => Ret None
    end).

(** Lines 85-92: [newlyCreatedFiles]. *)
Definition fromNewlyCreatedFiles (composerData : value)
    (workspaceEntries : list WorkspaceEntry) : outcome (option string) :=
  let* files := getp composerData "newlyCreatedFiles" in
  let* len := (if truthy files then getp files "length" else Ret VUndef) in
  if truthy files && gt0 len then
    let* items := iterate files in
    for_return items (fun file =>
      let* uri := getp file "uri" in
      let* path := (if truthy uri then getp uri "path" else Ret VUndef) in
      if truthy uri && truthy path then projectOfPath workspaceEntries path
      else Ret None)
  else Ret None.

(** Lines 95-100: the keys of [codeBlockData]. *)
Definition fromCodeBlockData (composerData : value)
    (workspaceEntries : list WorkspaceEntry) : outcome (option string) :=
  let* codeBlockData := getp composerData "codeBlockData" in
  if truthy codeBlockData then
    for_return (Object_keys codeBlockData) (fun filePath =>
      projectOfPath workspaceEntries (VStr filePath))
  else Ret None.

(** Lines 109-116: [bubble.relevantFiles]. *)
Definition fromRelevantFiles (bubble : value)
    (workspaceEntries : list WorkspaceEntry) : outcome (option string) :=
  let* relevantFiles := getp bubble "relevantFiles" in
  if truthy relevantFiles && isArray relevantFiles then
    let* items := iterate relevantFiles in
    for_return items (fun filePath =>
      if truthy filePath then projectOfPath workspaceEntries filePath
      else Ret None)
  else Ret None.

(** Lines 118-125: [bubble.context.fileSelections]. *)
Definition fromFileSelections (bubble : value)
    (workspaceEntries : list WorkspaceEntry) : outcome (option string) :=
  let* context := getp bubble "context" in
  let* fileSelections := (if truthy context then getp context "fileSelections" else Ret VUndef) in
  if truthy context && truthy fileSelections && isArray fileSelections then
    let* items := iterate fileSelections in
    for_return items (fun fileSelection =>
      let* uri := (if truthy fileSelection then getp fileSelection "uri" else Ret VUndef) in
      let* path := (if truthy uri then getp uri "path" else Ret VUndef) in
      if truthy fileSelection && truthy uri && truthy path then
        projectOfPath workspaceEntries path
      else Ret None)
  else Ret None.

(** Lines 103-127: the bubbles the conversation refers to, in order. *)
Definition fromBubbles (composerData : value)
    (workspaceEntries : list WorkspaceEntry) (bubbleMap : gmap string value)
    : outcome (option string) :=
  let* headers := getp composerData "fullConversationHeadersOnly" in
  let* conversationHeaders := iterate (or_else headers (VArr [])) in
  for_return conversationHeaders (fun header =>
    let* bubbleId := getp header "bubbleId" in
    match bubbleMap !! ToString bubbleId with
    | Some bubble =>
        if truthy bubble then
          or_next (fromRelevantFiles bubble workspaceEntries)
                  (fromFileSelections bubble workspaceEntries)
        else Ret None
    | None => Ret None
    end).

(** [determineProjectForConversation]: [null] is [None]. *)
Definition determineProjectForConversation (composerData composerId : value)
    (projectLayoutsMap : gmap string (list value))
    (projectNameToWorkspaceId : gmap string string)
    (workspaceEntries : list WorkspaceEntry)
    (bubbleMap : gmap string value) : outcome (option string) :=
  or_next (fromProjectLayouts composerId projectLayoutsMap projectNameToWorkspaceId)
  (or_next (fromNewlyCreatedFiles composerData workspaceEntries)
  (or_next (fromCodeBlockData composerData workspaceEntries)
           (fromBubbles composerData workspaceEntries bubbleMap))).

(** ** Matching (lines 272-298, 329-349, 402-422, 455-475) *)

(** The snippet around a match (lines 290-293; the same four lines at
    342-345, 415-418 and 468-471). *)
Definition snippet (text query queryLower : string) : string :=
  let matchIndex := indexOf (toLowerCase text) queryLower in
  let start := Z.max 0 (matchIndex - 50) in
  let stop := Z.min (Z.of_nat (String.length text))
                    (matchIndex + Z.of_nat (String.length query) + 100) in
  (if 0 <? start then "..." else "") +:+ slice text start stop +:+
  (if stop <? Z.of_nat (String.length text) then "..." else "").

(** [v?.toLowerCase().includes(queryLower)]: [undefined] (falsy) when [v]
    is [undefined] or [null]; throws when [v] is neither that nor a string. *)
Definition includes_opt (v : value) (queryLower : string) : outcome bool :=
  match v with
  | VUndef | VNull => Ret false
  | _ => let* s := as_string v in Ret (includes (toLowerCase s) queryLower)
  end.

(** Lines 282-297: the bubbles of a unified-store conversation. [Some]
    is [hasMatch] with its [matchingText]. *)
Definition matchHeaders (composerData : value) (bubbleMap : gmap string value)
    (query queryLower : string) : outcome (option string) :=
  let* headers := getp composerData "fullConversationHeadersOnly" in
  let* conversationHeaders := iterate (or_else headers (VArr [])) in
  for_return conversationHeaders (fun header =>
    let* bubbleId := getp header "bubbleId" in
    match bubbleMap !! ToString bubbleId with
    | Some bubble =>
        if truthy bubble then
          let* text := extractTextFromBubble bubble in
          if includes (toLowerCase text) queryLower then
            Ret (Some (snippet text query queryLower))
          else Ret None
        else Ret None
    | None => Ret None
    end).

(** Lines 272-298. *)
Definition matchComposerData (composerData : value) (title : string)
    (bubbleMap : gmap string value) (query queryLower : string)
    : outcome (option string) :=
  if includes (toLowerCase title) queryLower then Ret (Some title)
  else matchHeaders composerData bubbleMap query queryLower.

(** Lines 338-348 (and 411-421, 464-474): inline messages with a [text]. *)
Definition matchMessages (messages : list value) (query queryLower : string)
    : outcome (option string) :=
  for_return messages (fun bubble =>
    let* t := getp bubble "text" in
    let* hit := includes_opt t queryLower in
    if hit then Ret (Some (snippet (ToString t) query queryLower))
    else Ret None).

(** Lines 329-349 (and 402-422): one tab of an ask document. *)
Definition matchTab (tab : value) (query queryLower : string) : outcome (option string) :=
  let* chatTitle := getp tab "chatTitle" in
  let* hit := includes_opt chatTitle queryLower in
  if hit then Ret (Some (ToString chatTitle))
  else
    let* bubbles := getp tab "bubbles" in
    if truthy bubbles && isArray bubbles then
      let* items := iterate bubbles in
      matchMessages items query queryLower
    else Ret None.

(** Lines 455-475: one conversation of a legacy composer document. *)
Definition matchComposer (composer : value) (query queryLower : string)
    : outcome (option string) :=
  let* text := getp composer "text" in
  let* hit := includes_opt text queryLower in
  if hit then Ret (Some (ToString text))
  else
    let* conversation := getp composer "conversation" in
    if isArray conversation then
      let* items := iterate conversation in
      matchMessages items query queryLower
    else Ret None.

(** ** Scanning the stores *)

(** Results pushed by a loop inside a [try] block: a throw ends the loop
    and keeps what was pushed before. *)
Fixpoint pushUntilThrow {A : Type} (xs : list A) (body : A → outcome (option SearchResult))
    : list SearchResult :=
  match xs with
  | [] => []
  | x :: rest =>
      match body x with
      | Throw => []
      | Ret None => pushUntilThrow rest body
      | Ret (Some r) => r :: pushUntilThrow rest body
      end
  end.

Definition parse_string (s : string) : outcome value := parse (VStr s).

(** Lines 190-207. *)
Definition buildBubbleMap (bubbleRows : list Row) : gmap string value :=
  fold_left (fun bubbleMap row =>
    match split ":" (key row) with
    | _ :: _ :: bubbleId :: _ =>
        match parse_string (val row) with
        | Ret bubble =>
            if truthy bubble && typeof_object bubble then <[bubbleId := bubble]> bubbleMap
            else bubbleMap
        | Throw => bubbleMap
        end
    | _ => bubbleMap
    end) bubbleRows ∅.

(** Lines 224-235: the root paths of the layout descriptors. *)
Definition rootPaths (layouts : list value) : list value :=
  flat_map (fun layout =>
    match layout with
    | VStr s =>
        try_catch
          (let* layoutObj := parse_string s in
           let* rootPath := getp layoutObj "rootPath" in
           Ret (if truthy rootPath then [rootPath] else []))
          []
    | _ => []
    end) layouts.

(** Lines 210-241. *)
Definition buildProjectLayoutsMap (messageContextRows : list Row)
    : gmap string (list value) :=
  fold_left (fun projectLayoutsMap row =>
    match split ":" (key row) with
    | _ :: composerId :: _ =>
        try_catch
          (let* context := parse_string (val row) in
           let* projectLayouts := getp context "projectLayouts" in
           if truthy projectLayouts && isArray projectLayouts then
             let* layouts := iterate projectLayouts in
             Ret (<[composerId :=
                      default [] (projectLayoutsMap !! composerId) ++ rootPaths layouts]>
                    projectLayoutsMap)
           else Ret projectLayoutsMap)
          projectLayoutsMap
    | _ => projectLayoutsMap
    end) messageContextRows ∅.

(** [row.key.split(':')[1]] *)
Definition composerIdOf (row : Row) : value :=
  match split ":" (key row) with
  | _ :: id :: _ => VStr id
  | _ => VUndef
  end.

(** Lines 269 and 275: the title of a unified-store conversation, a
    string once [toLowerCase] has been called on it. *)
Definition composerTitle (composerData composerId : value) : outcome string :=
  let* composerName := getp composerData "name" in
  let* title :=
    (if truthy composerName then Ret composerName
     else let* id := as_string composerId in
          Ret (VStr ("Conversation " +:+ slice id 0 8))) in
  as_string title.

(** Lines 249-310: the body of the [try] block for one [composerData:]
    row. *)
Definition searchComposerRow (now query queryLower : string)
    (projectLayoutsMap : gmap string (list value))
    (projectNameToWorkspaceId : gmap string string)
    (workspaceEntries : list WorkspaceEntry)
    (bubbleMap : gmap string value) (row : Row) : outcome (option SearchResult) :=
  let composerId := composerIdOf row in
  let* composerData := parse_string (val row) in
  let* projectId := determineProjectForConversation composerData composerId
                      projectLayoutsMap projectNameToWorkspaceId workspaceEntries bubbleMap in
  let workspaceEntry :=
    find (fun e => match projectId with
                   | Some id => String.eqb (name e) id
                   | None => false
                   end) workspaceEntries in
  let* title := composerTitle composerData composerId in
  let* hit := matchComposerData composerData title bubbleMap query queryLower in
  match hit, projectId with
  | Some text, Some id =>
      if nonEmpty id then
        let* lastUpdatedAt := getp composerData "lastUpdatedAt" in
        let* createdAt := getp composerData "createdAt" in
        Ret (Some {| workspaceId := id;
                     workspaceFolder := folder <$> workspaceEntry;
                     chatId := composerId;
                     chatTitle := title;
                     timestamp := or_else lastUpdatedAt (or_else createdAt (VStr now));
                     matchingText := text;
                     type := composer |})
      else Ret None
  | _, _ => Ret None
  end.

(** Lines 247-314: every row has its own [try]/[catch]. *)
Definition searchComposerRows (now query queryLower : string)
    (projectLayoutsMap : gmap string (list value))
    (projectNameToWorkspaceId : gmap string string)
    (workspaceEntries : list WorkspaceEntry)
    (bubbleMap : gmap string value) (composerRows : list Row) : list SearchResult :=
  flat_map (fun row =>
    match searchComposerRow now query queryLower projectLayoutsMap
            projectNameToWorkspaceId workspaceEntries bubbleMap row with
    | Ret (Some r) => [r]
    | _ => []
    end) composerRows.

(** Lines 329-361 and 402-434: one tab of an ask document, for the store
    whose results carry [wsId] and [wsFolder]. A truthy [chatTitle] is a
    string here, since [toLowerCase] was called on it. *)
Definition searchTab (wsId : string) (wsFolder : option string)
    (now query queryLower : string) (tab : value) : outcome (option SearchResult) :=
  let* hit := matchTab tab query queryLower in
  match hit with
  | Some text =>
      let* tabId := getp tab "tabId" in
      let* title := getp tab "chatTitle" in
      let* fallback :=
        (if truthy title then Ret EmptyString
         else let* short := (match tabId with
                             | VUndef | VNull => Ret VUndef
                             | _ => let* s := as_string tabId in Ret (VStr (substring s 0 8))
                             end) in
              Ret ("Chat " +:+ ToString (or_else short (VStr "Untitled")))) in
      let* lastSendTime := getp tab "lastSendTime" in
      Ret (Some {| workspaceId := wsId;
                   workspaceFolder := wsFolder;
                   chatId := tabId;
                   chatTitle := if truthy title then ToString title else fallback;
                   timestamp := or_else lastSendTime (VStr now);
                   matchingText := text;
                   type := chat |})
  | None => Ret None
  end.

(** Lines 324-367 and 397-440: the ask document of a store. *)
Definition searchChatData (wsId : string) (wsFolder : option string)
    (now query queryLower : string) (chatResult : option string) : list SearchResult :=
  match chatResult with
  | Some v =>
      if nonEmpty v then
        match (let* chatData := parse_string v in getp chatData "tabs") with
        | Ret tabs =>
            if truthy tabs && isArray tabs then
              pushUntilThrow (items_of tabs)
                             (searchTab wsId wsFolder now query queryLower)
            else []
        | Throw => []
        end
      else []
  | None => []
  end.

(** Lines 454-487: one conversation of a legacy composer document. A
    truthy [text] is a string here, since [toLowerCase] was called on it. *)
Definition searchComposer (entry : WorkspaceEntry) (now query queryLower : string)
    (c : value) : outcome (option SearchResult) :=
  let* hit := matchComposer c query queryLower in
  match hit with
  | Some text =>
      let* composerId := getp c "composerId" in
      let* title := getp c "text" in
      let* fallback := (if truthy title then Ret EmptyString
                        else let* s := as_string composerId in
                             Ret ("Composer " +:+ substring s 0 8)) in
      let* lastUpdatedAt := getp c "lastUpdatedAt" in
      let* createdAt := getp c "createdAt" in
      Ret (Some {| workspaceId := name entry;
                   workspaceFolder := Some (folder entry);
                   chatId := composerId;
                   chatTitle := if truthy title then ToString title else fallback;
                   timestamp := or_else lastUpdatedAt (or_else createdAt (VStr now));
                   matchingText := text;
                   type := composer |})
  | None => Ret None
  end.

(** Lines 450-493: the composer document of a legacy store. *)
Definition searchComposerData (entry : WorkspaceEntry) (now query queryLower : string)
    (composerResult : option string) : list SearchResult :=
  match composerResult with
  | Some v =>
      if nonEmpty v then
        match (let* composerData := parse_string v in getp composerData "allComposers") with
        | Ret allComposers =>
            if truthy allComposers && isArray allComposers then
              pushUntilThrow (items_of allComposers)
                             (searchComposer entry now query queryLower)
            else []
        | Throw => []
        end
      else []
  | None => []
  end.

Definition wants (ty what : string) : bool := String.eqb ty "all" || String.eqb ty what.

(** Lines 186-378: the unified store. Returns what was pushed onto
    [results] and the events on the handle. When [new Database] throws
    there is no handle; after that, both the end of the [try] block and
    the [catch] block close it. *)
Definition searchGlobalStorage (g : GlobalStore) (ty now query queryLower : string)
    (projectNameToWorkspaceId : gmap string string)
    (workspaceEntries : list WorkspaceEntry) : list SearchResult * list event :=
  if g_opens g then
    let events := [EvOpen GlobalDb; EvClose GlobalDb] in
    match g_bubbleRows g, g_contextRows g with
    | Ret bubbleRows, Ret messageContextRows =>
        let bubbleMap := buildBubbleMap bubbleRows in
        let projectLayoutsMap := buildProjectLayoutsMap messageContextRows in
        match (if wants ty "composer" then g_composerRows g else Ret []) with
        | Ret composerRows =>
            let agent := searchComposerRows now query queryLower projectLayoutsMap
                           projectNameToWorkspaceId workspaceEntries bubbleMap composerRows in
            match (if wants ty "chat" then g_chatData g else Ret None) with
            | Ret globalChatResult =>
                (agent ++ searchChatData "global" None now query queryLower globalChatResult,
                 events)
            | Throw => (agent, events)
            end
        | Throw => ([], events)
        end
    | _, _ => ([], events)
    end
  else ([], []).

(** Lines 383-499: the legacy store of one workspace. The handle is
    closed at the end of the [try] block (line 496); the [catch] block
    (lines 497-499) only logs. *)
Definition searchWorkspaceStore (w : World) (ty query queryLower : string)
    (entry : WorkspaceEntry) : list SearchResult * list event :=
  match w_store w (name entry) with
  | None => ([], [])
  | Some db =>
      if s_opens db then
        let id := WorkspaceDb (name entry) in
        match (if wants ty "chat" then s_chatData db else Ret None) with
        | Ret chatResult =>
            let chats := searchChatData (name entry) (Some (folder entry))
                           (w_now w) query queryLower chatResult in
            match (if wants ty "composer" then s_composerData db else Ret None) with
            | Ret composerResult =>
                (chats ++ searchComposerData entry (w_now w) query queryLower composerResult,
                 [EvOpen id; EvClose id])
            | Throw => (chats, [EvOpen id])
            end
        | Throw => ([], [EvOpen id])
        end
      else ([], [])
  end.

(** Lines 382-500. *)
Fixpoint searchWorkspaceStores (w : World) (ty query queryLower : string)
    (workspaceEntries : list WorkspaceEntry) : list SearchResult * list event :=
  match workspaceEntries with
  | [] => ([], [])
  | entry :: rest =>
      let '(r1, e1) := searchWorkspaceStore w ty query queryLower entry in
      let '(r2, e2) := searchWorkspaceStores w ty query queryLower rest in
      (r1 ++ r2, e1 ++ e2)
  end.

(** ** Workspace directory scan (lines 150-180) *)

(** Lines 153-169: a directory with a descriptor file gives an entry; its
    folder is the descriptor's [folder], or [''] when that is falsy or
    the descriptor cannot be read or parsed. *)
Definition readWorkspaceEntries (w : World) (entries : list Dirent)
    : list (string * value) :=
  flat_map (fun entry =>
    if d_isDirectory entry then
      match w_workspaceJson w (d_name entry) with
      | Some content =>
          [(d_name entry,
            try_catch
              (let* text := content in
               let* workspaceData := parse_string text in
               let* f := getp workspaceData "folder" in
               Ret (or_else f (VStr "")))
              (VStr ""))]
      | None => []
      end
    else []) entries.

(** The loop of lines 173-180 calls [split] on every truthy folder, which
    throws unless the folder is a string. Past that loop every folder is
    a string, the type that [getProjectFromFilePath] declares. *)
Fixpoint checkedEntries (raw : list (string * value)) : outcome (list WorkspaceEntry) :=
  match raw with
  | [] => Ret []
  | (n, f) :: rest =>
      let* s := (if truthy f then as_string f else Ret EmptyString) in
      let* es := checkedEntries rest in
      Ret ({| name := n; folder := s |} :: es)
  end.

(** [folder.split('/').pop() || folder.split('\\').pop()] *)
Definition folderNameOf (folder : string) : string :=
  let a := default EmptyString (pop (split "/" folder)) in
  if nonEmpty a then a else default EmptyString (pop (split "\" folder)).

(** Lines 172-180: last path segment of the folder to workspace id. *)
Definition buildProjectNameToWorkspaceId (workspaceEntries : list WorkspaceEntry)
    : gmap string string :=
  fold_left (fun index entry =>
    if nonEmpty (folder entry) then
      let folderName := folderNameOf (folder entry) in
      if nonEmpty folderName then <[folderName := name entry]> index else index
    else index) workspaceEntries ∅.

(** ** Deduplication and ranking (lines 502-512) *)

Fixpoint findIndex_from {A : Type} (p : nat → A → bool) (i : nat) (l : list A) : option nat :=
  match l with
  | [] => None
  | x :: rest => if p i x then Some i else findIndex_from p (S i) rest
  end.

(** [l.findIndex(p)]; [None] is [-1]. The predicate also gets the
    position, which stands for the identity of the element. *)
Definition findIndex {A : Type} (p : nat → A → bool) (l : list A) : option nat :=
  findIndex_from p O l.

(** [r.chatId === result.chatId], [r] at position [j] and [result] at
    position [index] of the same array: an element is identical to
    itself, whatever its [chatId]. *)
Definition sameChatId (j index : nat) (r result : SearchResult) : bool :=
  if Nat.eqb j index then true else strict_equals (chatId r) (chatId result).

Fixpoint filter_from {A : Type} (p : nat → A → bool) (i : nat) (l : list A) : list A :=
  match l with
  | [] => []
  | x :: rest => if p i x then x :: filter_from p (S i) rest else filter_from p (S i) rest
  end.

(** Lines 503-505. *)
Definition removeDuplicates (results : list SearchResult) : list SearchResult :=
  filter_from (fun index result =>
    match findIndex (fun j r => sameChatId j index r result) results with
    | Some j => Nat.eqb index j
    | None => false
    end) O results.

(** Lines 509-510: [typeof t === 'number' ? t : new Date(t).getTime()];
    [None] is [NaN]. *)
Definition timeOf (t : value) : option Z :=
  match t with
  | VNum n => Some n
  | VStr s => Date_parse s
  | VBool b => Some (if b then 1 else 0)
  | VNull => Some 0
  | VUndef => None
  | VArr _ | VObj _ => Date_parse (ToString t)
  end.

(** The comparator of line 508-512: [timeB - timeA]. *)
Definition compareResults (a b : SearchResult) : option Z :=
  match timeOf (timestamp a), timeOf (timestamp b) with
  | Some timeA, Some timeB => Some (timeB - timeA)
  | _, _ => None
  end.

(** [Array.prototype.sort(cmp)]: a stable sort; a comparator result of
    [NaN] counts as [0]. For a consistent comparator the result is the
    one the language fixes; it is computed here by insertion. *)
Fixpoint sort_insert {A : Type} (cmp : A → A → option Z) (x : A) (l : list A) : list A :=
  match l with
  | [] => [x]
  | y :: rest =>
      if default 0 (cmp x y) <=? 0 then x :: y :: rest
      else y :: sort_insert cmp x rest
  end.

Fixpoint Array_sort {A : Type} (cmp : A → A → option Z) (l : list A) : list A :=
  match l with
  | [] => []
  | x :: rest => sort_insert cmp x (Array_sort cmp rest)
  end.

(** ** The handler (lines 132-522) *)

Definition json (body_error : option string) (body_results : option (list SearchResult))
    (st : Z) : Response :=
  {| status := st; error := body_error; results := body_results |}.

(** Everything pushed onto [results], in the order of the pushes, with the
    events on the store handles. *)
Definition collectResults (w : World) (ty query queryLower : string)
    (workspaceEntries : list WorkspaceEntry) : list SearchResult * list event :=
  let projectNameToWorkspaceId := buildProjectNameToWorkspaceId workspaceEntries in
  let '(r1, e1) :=
    match w_globalStore w with
    | Some g => searchGlobalStorage g ty (w_now w) query queryLower
                  projectNameToWorkspaceId workspaceEntries
    | None => ([], [])
    end in
  let '(r2, e2) := searchWorkspaceStores w ty query queryLower workspaceEntries in
  (r1 ++ r2, e1 ++ e2).

(** Lines 138-139: [searchParams.get('q')], with [null] read as the
    empty string, which is as falsy; and [searchParams.get('type') || 'all']. *)
Definition queryOf (request : Request) : string := default EmptyString (q request).

Definition scopeOf (request : Request) : string :=
  match type_param request with
  | Some t => if nonEmpty t then t else "all"
  | None => "all"
  end.

(** Lines 150-169 and 173-180: the workspace entries, or the throw of
    [readdir] or of [split]. *)
Definition scanWorkspaces (w : World) : outcome (list WorkspaceEntry) :=
  let* entries := w_readdir w in
  checkedEntries (readWorkspaceEntries w entries).

(** [GET(request)]: the response, together with the events of the
    request in the order in which they happen. *)
Definition GET (w : World) (request : Request) : Response * list event :=
  let query := queryOf request in
  let ty := scopeOf request in
  if negb (nonEmpty query) then
    (json (Some "No search query provided") None 400, [])
  else
    let queryLower := toLowerCase query in
    match scanWorkspaces w with
    | Ret workspaceEntries =>
        let '(found, events) := collectResults w ty query queryLower workspaceEntries in
        let uniqueResults := removeDuplicates found in
        (json None (Some (Array_sort compareResults uniqueResults)) 200,
         EvReaddir :: events)
    | Throw => (json (Some "Search failed") (Some []) 500, [EvReaddir])
    end.

(** * The command palette, caller of the handler

    The component [GlobalSearch] of the client fetches
    [/api/search?q=...&type=...] and shows the results. Its pure parts
    are embedded here; the handler reads the parameter values that the
    client encoded into the URL. *)

(** [truncateText(text, maxLength)]; the component calls it with the
    default [maxLength] of 100. *)
Definition truncateText (text : string) (maxLength : Z) : string :=
  if Z.of_nat (String.length text) <=? maxLength then text
  else slice text 0 maxLength +:+ "...".

(** The state [filter] of the component: ['all' | 'chat' | 'composer']. *)
Inductive scope : Type := AllLogs | AskLogs | AgentLogs.

Definition scope_name (f : scope) : string :=
  match f with
  | AllLogs => "all"
  | AskLogs => "chat"
  | AgentLogs => "composer"
  end.

(** The debounced search effect: for a query that is blank after
    trimming, the results are cleared and nothing is fetched ([None]);
    otherwise the request with the query as typed and the filter. *)
Definition searchEffect (query : string) (filter : scope) : option Request :=
  if negb (nonEmpty (trim query)) then None
  else Some {| q := Some query; type_param := Some (scope_name filter) |}.

(** [setResults(data.results || [])] *)
Definition shownResults (response : Response) : list SearchResult :=
  default [] (results response).

Definition kind_name (k : kind) : string :=
  match k with
  | chat => "chat"
  | composer => "composer"
  end.

(** The URL that [navigateToResult(result)] pushes. *)
Definition navigateToResult (result : SearchResult) : string :=
  "/workspace/" +:+ workspaceId result +:+ "?tab=" +:+ ToString (chatId result) +:+
  "&type=" +:+ kind_name (type result).

Inductive pressed : Type := ArrowDown | ArrowUp | Enter | OtherKey.

(** [results[selectedIndex]]: [undefined] ([None]) outside the array. *)
Definition resultAt (results : list SearchResult) (selectedIndex : Z) : option SearchResult :=
  if selectedIndex <? 0 then None else results !! Z.to_nat selectedIndex.

(** [handleKeyDown(e)]: the new [selectedIndex], and the URL navigated
    to, if any. *)
Definition handleKeyDown (results : list SearchResult) (selectedIndex : Z) (e : pressed)
    : Z * option string :=
  match e with
  | ArrowDown => (Z.min (selectedIndex + 1) (Z.of_nat (length results) - 1), None)
  | ArrowUp => (Z.max (selectedIndex - 1) 0, None)
  | Enter =>
      match resultAt results selectedIndex with
      | Some result => (selectedIndex, Some (navigateToResult result))
      | None => (selectedIndex, None)
      end
  | OtherKey => (selectedIndex, None)
  end.

(** The index after a sequence of key presses. *)
Definition selectedAfter (results : list SearchResult) (selectedIndex : Z)
    (keys : list pressed) : Z :=
  fold_left (fun i e => fst (handleKeyDown results i e)) keys selectedIndex.

(** The label beside a result: the unified store, or the last segment of
    the workspace folder. *)
Inductive label : Type :=
| GlobalLabel
| FolderLabel (segment : string)
| NoLabel.

Definition workspaceLabel (result : SearchResult) : label :=
  if String.eqb (workspaceId result) "global" then GlobalLabel
  else match workspaceFolder result with
       | Some f =>
           if nonEmpty f then
             FolderLabel (default EmptyString (pop (split "/" (replace f "file://" ""))))
           else NoLabel
       | None => NoLabel
       end.

(** * Vocabulary of the specification *)

(** ** Structured documents *)

(** The structured document of the data model: a tree of text leaves and
    containers. *)
Inductive RichDocument : Type :=
| Leaf (text : string)
| Container (children : list RichDocument).

Definition concat_strings (l : list string) : string :=
  fold_right String.append EmptyString l.

(** The leaf texts of a document, concatenated in document order. *)
Fixpoint leafText (d : RichDocument) : string :=
  match d with
  | Leaf s => s
  | Container ds => concat_strings (map leafText ds)
  end.

(** A JSON node stands for a document: a leaf is a node of type ['text']
    with a string [text] (and, if that is empty, no [children] array); a
    container is any other node with a [children] array. *)
Inductive represents : value → RichDocument → Prop :=
| represents_leaf props s :
    assoc "type" props = VStr "text" →
    assoc "text" props = VStr s →
    nonEmpty s = true ∨ isArray (assoc "children" props) = false →
    represents (VObj props) (Leaf s)
| represents_container props items ds :
    strict_equals (assoc "type" props) (VStr "text") && truthy (assoc "text" props) = false →
    assoc "children" props = VArr items →
    Forall2 represents items ds →
    represents (VObj props) (Container ds).

(** The text field of a bubble is blank: falsy, or white space only. *)
Definition blank (t : value) : Prop :=
  truthy t = false ∨ ∃ s, t = VStr s ∧ trim s = EmptyString.

(** ** Matching, in the words of the specification *)




(** The four conversation sources. A unified-store agent conversation
    comes with the id of its row and with the bubble map. *)
Inductive source : Type :=
| UnifiedAgent (composerId : value) (bubbleMap : gmap string value)
| UnifiedAsk
| LegacyAsk
| LegacyComposer.

(** The matching code that the handler runs for a conversation of each
    source. *)
Definition matchConversation (src : source) (conversation : value) (query : string)
    : outcome (option string) :=
  let queryLower := toLowerCase query in
  match src with
  | UnifiedAgent composerId bubbleMap =>
      let* title := composerTitle conversation composerId in
      matchComposerData conversation title bubbleMap query queryLower
  | UnifiedAsk | LegacyAsk => matchTab conversation query queryLower
  | LegacyComposer => matchComposer conversation query queryLower
  end.







(** ** Project resolution, in the words of the specification *)











(** The final segment of a path. *)
Definition finalSegment (path : string) : string :=
  default EmptyString (pop (split "/" path)).

(** ** Deduplication and ranking, in the words of the specification *)

(** [r] is in [found], and nothing pushed before it has its [chatId]. *)
Definition firstOccurrence (found : list SearchResult) (r : SearchResult) : Prop :=
  ∃ before after,
    found = before ++ r :: after ∧
    Forall (fun s => strict_equals (chatId s) (chatId r) = false) before.

(** No two entries share a [chatId]. *)
Definition distinctChatIds (l : list SearchResult) : Prop :=
  ∀ (i j : nat) (a b : SearchResult),
    (i < j)%nat → l !! i = Some a → l !! j = Some b →
    strict_equals (chatId a) (chatId b) = false.

(** [a] is at least as recent as [b]; a timestamp that is not a time
    ([NaN]) compares with nothing. *)
Definition newerOrEqual (a b : SearchResult) : Prop :=
  match timeOf (timestamp a), timeOf (timestamp b) with
  | Some timeA, Some timeB => timeB ≤ timeA
  | _, _ => False
  end.

(** Every entry is at least as recent as the next one. *)
Definition sortedByRecency (l : list SearchResult) : Prop :=
  ∀ (i : nat) (a b : SearchResult),
    l !! i = Some a → l !! S i = Some b → newerOrEqual a b.

(** Everything pushed onto [results], in scan order. *)
Definition foundResults (w : World) (request : Request)
    (workspaceEntries : list WorkspaceEntry) : list SearchResult :=
  fst (collectResults w (scopeOf request) (queryOf request)
         (toLowerCase (queryOf request)) workspaceEntries).

(** What the scan of the unified store pushes. *)
Definition unifiedResults (w : World) (request : Request)
    (workspaceEntries : list WorkspaceEntry) : list SearchResult :=
  match w_globalStore w with
  | Some g =>
      fst (searchGlobalStorage g (scopeOf request) (w_now w) (queryOf request)
             (toLowerCase (queryOf request))
             (buildProjectNameToWorkspaceId workspaceEntries) workspaceEntries)
  | None => []
  end.

(** What the scan of the legacy store of one workspace pushes. *)
Definition legacyResults (w : World) (request : Request) (entry : WorkspaceEntry)
    : list SearchResult :=
  fst (searchWorkspaceStore w (scopeOf request) (queryOf request)
         (toLowerCase (queryOf request)) entry).

(** The survivors of [removeDuplicates]: [seen] is what comes before. *)
Fixpoint keepFirst (seen l : list SearchResult) : list SearchResult :=
  match l with
  | [] => []
  | r :: rest =>
      if existsb (fun s => strict_equals (chatId s) (chatId r)) seen
      then keepFirst (seen ++ [r]) rest
      else r :: keepFirst (seen ++ [r]) rest
  end.

(** [distinctChatIds], by recursion on the list. *)
Fixpoint pairwiseDistinct (l : list SearchResult) : Prop :=
  match l with
  | [] => True
  | r :: rest =>
      Forall (fun s => strict_equals (chatId r) (chatId s) = false) rest ∧
      pairwiseDistinct rest
  end.

(** A directory entry that gives a workspace entry. *)
Definition hasDescriptor (w : World) (entry : Dirent) : bool :=
  d_isDirectory entry &&
  match w_workspaceJson w (d_name entry) with
  | Some _ => true
  | None => false
  end.

(** ** Failures and handles, in the words of the specification *)








Definition store_id_eqb (a b : store_id) : bool :=
  match a, b with
  | GlobalDb, GlobalDb => true
  | WorkspaceDb x, WorkspaceDb y => String.eqb x y
  | _, _ => false
  end.

(** The handles are released in time: a store is opened only while no
    handle is open, and no handle is open at the end. [opened] are the
    handles open so far. *)
Fixpoint releasesHandles (opened : list store_id) (events : list event) : bool :=
  match events with
  | [] => match opened with [] => true | _ => false end
  | EvReaddir :: rest => releasesHandles opened rest
  | EvOpen db :: rest =>
      match opened with
      | [] => releasesHandles [db] rest
      | _ => false
      end
  | EvClose db :: rest =>
      releasesHandles (List.filter (fun o => negb (store_id_eqb o db)) opened) rest
  end.

(** ** The maps of the scan, by lookup *)

(** The test of [getProjectFromFilePath]: [path] lies in the folder of
    [entry], both without the file-scheme marker. *)
Definition insideFolder (path : string) (entry : WorkspaceEntry) : bool :=
  nonEmpty (folder entry) &&
  startsWith (replace path "file://" "") (replace (folder entry) "file://" "").

(** The key under which the folder index holds an entry, if it holds it. *)
Definition indexKey (entry : WorkspaceEntry) : option string :=
  if nonEmpty (folder entry) then
    let folderName := folderNameOf (folder entry) in
    if nonEmpty folderName then Some folderName else None
  else None.





(** * Example data *)

(** JSON text as the stores hold it: [JSON.stringify] of a document
    without [undefined] parts. *)
Definition quote_char : ascii := ascii_of_nat 34.

Fixpoint escape (s : string) : string :=
  match s with
  | EmptyString => EmptyString
  | String c rest =>
      if Ascii.eqb c quote_char || Ascii.eqb c "\"
      then String "\" (String c (escape rest))
      else String c (escape rest)
  end.

Definition quoted (s : string) : string :=
  String quote_char (escape s) +:+ String quote_char EmptyString.

Fixpoint stringify (v : value) : string :=
  match v with
  | VUndef | VNull => "null"
  | VBool b => if b then "true" else "false"
  | VNum n => pretty n
  | VStr s => quoted s
  | VArr items => "[" +:+ join "," (map stringify items) +:+ "]"
  | VObj props =>
      "{" +:+ join "," (map (fun kv => quoted (fst kv) +:+ ":" +:+ stringify (snd kv)) props)
      +:+ "}"
  end.

(** A three-level document with the leaves A, B, C. *)
Definition sample_richDocument : value :=
  VObj [("root", VObj [("type", VStr "root"); ("children", VArr [
    VObj [("type", VStr "paragraph"); ("children", VArr [
      VObj [("type", VStr "text"); ("text", VStr "A")];
      VObj [("type", VStr "list"); ("children", VArr [
        VObj [("type", VStr "text"); ("text", VStr "B")]])]])];
    VObj [("type", VStr "text"); ("text", VStr "C")]])])].

Definition sample_richBubble : value :=
  VObj [("text", VStr "  "); ("richText", VStr (stringify sample_richDocument))].

Definition sample_bubble : value :=
  VObj [("text", VStr "We should refactor the parser");
        ("relevantFiles", VArr [VStr "/home/u/alpha/src/parser.ts"])].

Definition sample_conversation : value :=
  VObj [("name", VStr "Parser work");
        ("fullConversationHeadersOnly", VArr [VObj [("bubbleId", VStr "b1")]]);
        ("lastUpdatedAt", VNum 300)].

(** Conversations that match the query [fix]. *)
Definition sample_fix (i : nat) : value :=
  VObj [("name", VStr ("Fix number " +:+ pretty i));
        ("newlyCreatedFiles", VArr [VObj [("uri", VObj [("path", VStr "/home/u/alpha/fix.ts")])]]);
        ("createdAt", VNum (Z.of_nat i))].

Definition sample_tab1 : value :=
  VObj [("tabId", VStr "t1"); ("chatTitle", VStr "Refactor Auth Module");
        ("bubbles", VArr [VObj [("text", VStr "Where do we start?")]]);
        ("lastSendTime", VNum 200)].

Definition sample_tab2 : value :=
  VObj [("tabId", VStr "t2"); ("chatTitle", VStr "Scheduler");
        ("bubbles", VArr [VObj [("text", VStr "Can you refactor the scheduler loop?")]]);
        ("lastSendTime", VStr "2024-01-01T00:00:00.000Z")].

(** A tab whose [lastSendTime] is not a date. *)
Definition sample_tab3 : value :=
  VObj [("tabId", VStr "t3"); ("chatTitle", VStr "Refactor later");
        ("lastSendTime", VStr "soon")].

Definition sample_globalChat : value := VObj [("tabs", VArr [sample_tab1])].
Definition sample_workspaceChat : value := VObj [("tabs", VArr [sample_tab1; sample_tab2])].
Definition sample_undatedChat : value := VObj [("tabs", VArr [sample_tab3; sample_tab1])].

Definition sample_descriptor (folderURI : string) : value := VObj [("folder", VStr folderURI)].

Definition sample_documents : list value :=
  [ sample_richDocument; sample_richBubble; sample_bubble; sample_conversation;
    sample_globalChat; sample_workspaceChat; sample_undatedChat;
    sample_descriptor "file:///home/u/alpha"; sample_descriptor "file:///home/u/beta" ]
  ++ map sample_fix (seq 1 10).

(** [JSON.parse] on the texts of the examples: the JSON text of a sample
    document parses to that document; the other texts of the examples are
    not JSON. *)
Definition sample_JSON_parse (s : string) : option value :=
  List.find (fun d => String.eqb (stringify d) s) sample_documents.

(** [Date.parse] on the timestamps of the examples. *)
Definition sample_Date_parse (s : string) : option Z :=
  if String.eqb s "2024-01-01T00:00:00.000Z" then Some 1704067200000
  else if String.eqb s "2024-06-01T12:00:00.000Z" then Some 1717243200000
  else None.

(** No example converts a string to a number. *)
Definition sample_StringToNumber (s : string) : option Z := None.

Definition sample_entries : list WorkspaceEntry :=
  [ {| name := "ws1"; folder := "file:///home/u/alpha" |};
    {| name := "ws2"; folder := "file:///home/u/beta" |} ].

Definition sample_dirents : list Dirent :=
  [ {| d_name := "ws1"; d_isDirectory := true |};
    {| d_name := "ws2"; d_isDirectory := true |};
    {| d_name := "README.md"; d_isDirectory := false |} ].

Definition sample_workspaceJson (n : string) : option (outcome string) :=
  if String.eqb n "ws1" then Some (Ret (stringify (sample_descriptor "file:///home/u/alpha")))
  else if String.eqb n "ws2" then Some (Ret (stringify (sample_descriptor "file:///home/u/beta")))
  else None.

(** A unified store with one bubble row that is not JSON. *)
Definition sample_globalStore : GlobalStore :=
  {| g_opens := true;
     g_bubbleRows := Ret [ {| key := "bubbleId:c1:b0"; val := "{not json" |};
                           {| key := "bubbleId:c1:b1"; val := stringify sample_bubble |} ];
     g_contextRows := Ret [];
     g_composerRows := Ret [ {| key := "composerData:c1"; val := stringify sample_conversation |} ];
     g_chatData := Ret (Some (stringify sample_globalChat)) |}.

(** Two workspaces; the store of the second cannot be opened. *)
Definition sample_world : World :=
  {| w_readdir := Ret sample_dirents;
     w_workspaceJson := sample_workspaceJson;
     w_globalStore := Some sample_globalStore;
     w_store := fun n =>
       if String.eqb n "ws1" then
         Some {| s_opens := true;
                 s_chatData := Ret (Some (stringify sample_workspaceChat));
                 s_composerData := Ret None |}
       else if String.eqb n "ws2" then
         Some {| s_opens := false; s_chatData := Ret None; s_composerData := Ret None |}
       else None;
     w_now := "2024-06-01T12:00:00.000Z" |}.

(** One workspace whose ask document holds a timestamp that is not a date. *)
Definition sample_undated_world : World :=
  {| w_readdir := Ret sample_dirents;
     w_workspaceJson := sample_workspaceJson;
     w_globalStore := None;
     w_store := fun n =>
       if String.eqb n "ws1" then
         Some {| s_opens := true;
                 s_chatData := Ret (Some (stringify sample_undatedChat));
                 s_composerData := Ret None |}
       else None;
     w_now := "2024-06-01T12:00:00.000Z" |}.

(** Two workspaces; the first store opens, and its first query throws. *)
Definition sample_failing_world : World :=
  {| w_readdir := Ret sample_dirents;
     w_workspaceJson := sample_workspaceJson;
     w_globalStore := None;
     w_store := fun n =>
       if String.eqb n "ws1" then
         Some {| s_opens := true; s_chatData := Throw; s_composerData := Ret None |}
       else if String.eqb n "ws2" then
         Some {| s_opens := true;
                 s_chatData := Ret (Some (stringify sample_workspaceChat));
                 s_composerData := Ret None |}
       else None;
     w_now := "2024-06-01T12:00:00.000Z" |}.




Definition sample_request : Request := {| q := Some "refactor"; type_param := None |}.

(** The result that the unified store's ask document gives for the
    sample request. *)
Definition sample_global_result : SearchResult :=
  {| workspaceId := "global"; workspaceFolder := None;
     chatId := VStr "t1"; chatTitle := "Refactor Auth Module"; timestamp := VNum 200;
     matchingText := "Refactor Auth Module"; type := chat |}.

(** The results of the sample request in [sample_world]. *)
Definition sample_results : list SearchResult :=
  [ {| workspaceId := "ws1"; workspaceFolder := Some "file:///home/u/alpha";
       chatId := VStr "t2"; chatTitle := "Scheduler";
       timestamp := VStr "2024-01-01T00:00:00.000Z";
       matchingText := "Can you refactor the scheduler loop?"; type := chat |};
    {| workspaceId := "ws1"; workspaceFolder := Some "file:///home/u/alpha";
       chatId := VStr "c1"; chatTitle := "Parser work"; timestamp := VNum 300;
       matchingText := "We should refactor the parser"; type := composer |};
    sample_global_result ].

(** The results of the sample request in [sample_undated_world]. *)
Definition sample_undated_results : list SearchResult :=
  [ {| workspaceId := "ws1"; workspaceFolder := Some "file:///home/u/alpha";
       chatId := VStr "t3"; chatTitle := "Refactor later"; timestamp := VStr "soon";
       matchingText := "Refactor later"; type := chat |};
    {| workspaceId := "ws1"; workspaceFolder := Some "file:///home/u/alpha";
       chatId := VStr "t1"; chatTitle := "Refactor Auth Module"; timestamp := VNum 200;
       matchingText := "Refactor Auth Module"; type := chat |} ].

(** Ten rows, the fourth of which is not JSON. *)
Definition sample_ten_rows : list Row :=
  map (fun i : nat => {| key := "composerData:fix" +:+ pretty i;
                         val := if Nat.eqb i 4 then "{not json" else stringify (sample_fix i) |})
      (seq 1 10).

Fixpoint replicate_char (n : nat) (c : ascii) : string :=
  match n with
  | O => EmptyString
  | S n' => String c (replicate_char n' c)
  end.

(** A text of length 300 with a match at offset 200. *)
Definition sample_long_text : string :=
  replicate_char 200 "a" +:+ "Scheduler" +:+ replicate_char 91 "b".

(** ** Damaged documents *)

(** An ask document whose second tab is [null]; a structured document
    with a [null] among the children of its root; a descriptor whose
    folder is a number. *)
Definition sample_damagedChat : value :=
  VObj [("tabs", VArr [sample_tab1; VNull; sample_tab2])].

Definition sample_nullDocument : value :=
  VObj [("root", VObj [("children", VArr [
    VObj [("type", VStr "text"); ("text", VStr "A")]; VNull])])].

Definition sample_numberDescriptor : value := VObj [("folder", VNum 5)].

(** [JSON.parse] on the texts of the examples, the damaged documents
    included. *)
Definition sample_JSON_parse_damaged (s : string) : option value :=
  List.find (fun d => String.eqb (stringify d) s)
    (sample_documents ++ [sample_damagedChat; sample_nullDocument; sample_numberDescriptor]).

(** Two workspace directories; the descriptor of the second is not
    JSON. No store exists. *)
Definition sample_broken_world : World :=
  {| w_readdir := Ret [ {| d_name := "ws1"; d_isDirectory := true |};
                        {| d_name := "ws3"; d_isDirectory := true |} ];
     w_workspaceJson := fun n =>
       if String.eqb n "ws3" then Some (Ret "{not json") else sample_workspaceJson n;
     w_globalStore := None;
     w_store := fun _ => None;
     w_now := "2024-06-01T12:00:00.000Z" |}.



(** The result of the second tab of the first workspace. *)
Definition sample_workspace_result : SearchResult :=
  {| workspaceId := "ws1"; workspaceFolder := Some "file:///home/u/alpha";
     chatId := VStr "t2"; chatTitle := "Scheduler";
     timestamp := VStr "2024-01-01T00:00:00.000Z";
     matchingText := "Can you refactor the scheduler loop?"; type := chat |}.

(** The sample request, restricted to ask conversations. *)
Definition sample_chat_request : Request :=
  {| q := Some "refactor"; type_param := Some "chat" |}.

(** * Properties *)

(** ** Facts about the string operations *)

Lemma startsWith_length s p : startsWith s p = true → (String.length p ≤ String.length s)%nat.
Proof.
  revert s; induction p as [|a p IH]; intros [|b s]; simpl; try lia; try discriminate.
  destruct (Ascii.eqb a b); [|discriminate]. intros H. apply IH in H. lia.
Qed.

Lemma indexOf_nil sub : indexOf "" sub = if startsWith "" sub then 0 else -1.
Proof. reflexivity. Qed.

Lemma indexOf_cons c s sub :
  indexOf (String c s) sub =
  if startsWith (String c s) sub then 0
  else if indexOf s sub <? 0 then -1 else 1 + indexOf s sub.
Proof. reflexivity. Qed.

Lemma includes_nil sub : includes "" sub = startsWith "" sub || false.
Proof. reflexivity. Qed.

Lemma includes_cons c s sub :
  includes (String c s) sub = startsWith (String c s) sub || includes s sub.
Proof. reflexivity. Qed.

Lemma indexOf_lower_bound s sub : -1 ≤ indexOf s sub.
Proof.
  induction s as [|c s IH].
  - rewrite indexOf_nil. destruct (startsWith "" sub); lia.
  - rewrite indexOf_cons. destruct (startsWith (String c s) sub); [lia|].
    destruct (indexOf s sub <? 0) eqn:E; lia.
Qed.

Lemma includes_indexOf s sub : includes s sub = (0 <=? indexOf s sub).
Proof.
  induction s as [|c s IH].
  - rewrite includes_nil, indexOf_nil. destruct (startsWith "" sub); reflexivity.
  - rewrite includes_cons, indexOf_cons.
    destruct (startsWith (String c s) sub); [reflexivity|]. simpl.
    rewrite IH. pose proof (indexOf_lower_bound s sub).
    destruct (indexOf s sub <? 0) eqn:E; lia.
Qed.

Lemma indexOf_occurrence s sub i :
  indexOf s sub = Z.of_nat i →
  startsWith (drop_chars i s) sub = true ∧
  ∀ j, (j < i)%nat → startsWith (drop_chars j s) sub = false.
Proof.
  revert i; induction s as [|c s IH]; intros i.
  - rewrite indexOf_nil. destruct (startsWith "" sub) eqn:E; [|lia].
    intros H. assert (i = O) by lia. subst. split; [exact E|]. intros; lia.
  - rewrite indexOf_cons. destruct (startsWith (String c s) sub) eqn:E.
    + intros H. assert (i = O) by lia. subst. split; [exact E|]. intros; lia.
    + destruct (indexOf s sub <? 0) eqn:E'; [lia|]. intros H.
      destruct i as [|i]; [lia|].
      destruct (IH i) as [H1 H2]; [lia|]. split; [exact H1|].
      intros [|j] Hj; simpl; [exact E|]. apply H2. lia.
Qed.

Lemma indexOf_fits s sub : 0 ≤ indexOf s sub →
  indexOf s sub + Z.of_nat (String.length sub) ≤ Z.of_nat (String.length s).
Proof.
  induction s as [|c s IH].
  - rewrite indexOf_nil. destruct (startsWith "" sub) eqn:E; [|lia].
    apply startsWith_length in E. simpl in E. lia.
  - rewrite indexOf_cons. cbn [String.length]. destruct (startsWith (String c s) sub) eqn:E.
    + apply startsWith_length in E. simpl in E. lia.
    + destruct (indexOf s sub <? 0) eqn:E'; lia.
Qed.

Lemma toLowerCase_length s : String.length (toLowerCase s) = String.length s.
Proof. induction s; simpl; congruence. Qed.

Lemma take_drop_substring n m s : take_chars m (drop_chars n s) = String.substring n m s.
Proof.
  revert n m; induction s as [|c s IH]; intros [|n] [|m]; simpl; try reflexivity.
  - f_equal. apply (IH O m).
  - apply (IH n O).
  - apply (IH n (S m)).
Qed.

Lemma slice_substring s (a b : nat) :
  (a ≤ b ≤ String.length s)%nat →
  slice s (Z.of_nat a) (Z.of_nat b) = String.substring a (b - a) s.
Proof.
  intros H. unfold slice.
  destruct (Z.of_nat a <? 0) eqn:Ea; [lia|].
  destruct (Z.of_nat b <? 0) eqn:Eb; [lia|].
  rewrite take_drop_substring. f_equal; lia.
Qed.

(** ** Snippet window *)

(** C6. When the lower-cased text contains the lower-cased query, the
    match index [i] is the first position at which the query occurs, and
    the snippet is the substring of the text from [max(0, i - 50)] to
    [min(length, i + |query| + 100)], with ["..."] in front exactly when
    the window starts after the beginning of the text and ["..."] behind
    exactly when it ends before the end of the text. *)
Theorem snippet_window (text query : string) :
  includes (toLowerCase text) (toLowerCase query) = true →
  ∃ i : nat,
    indexOf (toLowerCase text) (toLowerCase query) = Z.of_nat i ∧
    startsWith (drop_chars i (toLowerCase text)) (toLowerCase query) = true ∧
    (∀ j, (j < i)%nat → startsWith (drop_chars j (toLowerCase text)) (toLowerCase query) = false) ∧
    let start := (i - 50)%nat in
    let stop := Nat.min (String.length text) (i + String.length query + 100) in
    (start ≤ i ≤ stop)%nat ∧
    snippet text query (toLowerCase query) =
      (if (0 <? start)%nat then "..." else "") +:+
      String.substring start (stop - start) text +:+
      (if (stop <? String.length text)%nat then "..." else "").
Proof.
  intros Hinc. rewrite includes_indexOf in Hinc.
  assert (Hpos : 0 ≤ indexOf (toLowerCase text) (toLowerCase query)) by lia.
  pose proof (indexOf_fits _ _ Hpos) as Hfit.
  rewrite !toLowerCase_length in Hfit.
  destruct (Z_of_nat_complete _ Hpos) as [i Hi]. exists i.
  split; [exact Hi|].
  destruct (indexOf_occurrence _ _ _ Hi) as [H1 H2].
  split; [exact H1|]. split; [exact H2|]. cbv zeta.
  rewrite Hi in Hfit.
  split; [lia|].
  unfold snippet. rewrite Hi.
  replace (Z.max 0 (Z.of_nat i - 50)) with (Z.of_nat (i - 50)) by lia.
  replace (Z.min (Z.of_nat (String.length text)) (Z.of_nat i + Z.of_nat (String.length query) + 100))
    with (Z.of_nat (Nat.min (String.length text) (i + String.length query + 100))) by lia.
  rewrite slice_substring by lia.
  f_equal; [|f_equal].
  - destruct (0 <? Z.of_nat (i - 50)) eqn:E1, (0 <? i - 50)%nat eqn:E2; try reflexivity;
      apply Z.ltb_lt in E1 || apply Z.ltb_ge in E1; apply Nat.ltb_lt in E2 || apply Nat.ltb_ge in E2; lia.
  - set (stop := Nat.min _ _).
    destruct (Z.of_nat stop <? Z.of_nat (String.length text)) eqn:E1, (stop <? String.length text)%nat eqn:E2; try reflexivity;
      apply Z.ltb_lt in E1 || apply Z.ltb_ge in E1; apply Nat.ltb_lt in E2 || apply Nat.ltb_ge in E2; lia.
Qed.

(** ** Text extraction *)

Lemma for_acc_ext {A B : Type} (xs : list A) (acc : B) (f g : B → A → outcome B) :
  Forall (fun x => ∀ a, f a x = g a x) xs → for_acc xs acc f = for_acc xs acc g.
Proof.
  intros H. revert acc. induction H as [|x xs Hx _ IH]; intros acc; simpl; [reflexivity|].
  rewrite Hx. destruct (g acc x); simpl; [apply IH|reflexivity].
Qed.

Lemma depth_assoc k props : (depth (assoc k props) < depth (VObj props))%nat.
Proof.
  cbn [depth]. induction props as [|[k' v] props IH]; cbn [assoc fold_right snd depth]; [lia|].
  destruct (String.eqb k k'); lia.
Qed.

Lemma depth_items items :
  Forall (fun x => depth x < depth (VArr items))%nat items.
Proof.
  simpl. induction items as [|x items IH]; constructor; simpl; [lia|].
  eapply Forall_impl; [exact IH|]. simpl. intros; lia.
Qed.

Lemma depth_chars s : Forall (fun x => depth x = O) (chars s).
Proof. induction s; simpl; constructor; auto. Qed.

Lemma depth_children child sub :
  getp child "children" = Ret sub → isArray sub = true → (depth sub < depth child)%nat.
Proof.
  destruct child; cbn [getp]; try discriminate; intros [= <-].
  - destruct (String.eqb "children" "length"); discriminate.
  - discriminate.
  - discriminate.
  - destruct (String.eqb "children" "length"); discriminate.
  - intros _. apply depth_assoc.
Qed.

(** More fuel than the depth of the document changes nothing. *)
Lemma extractTextFromRichText_rec_fuel n m children :
  (depth children < n)%nat → (depth children < m)%nat →
  extractTextFromRichText_rec n children = extractTextFromRichText_rec m children.
Proof.
  revert m children. induction n as [|n IH]; intros [|m] children Hn Hm; try lia.
  simpl. destruct (iterate children) as [kids|] eqn:Hit; simpl; [|reflexivity].
  apply for_acc_ext.
  assert (Hkids : Forall (fun x => depth x < depth children ∨ depth x = 0)%nat kids).
  { destruct children; simpl in Hit; try discriminate; injection Hit as <-.
    - eapply Forall_impl; [apply depth_chars|]. simpl; auto.
    - eapply Forall_impl; [apply depth_items|]. simpl; auto. }
  eapply Forall_impl; [exact Hkids|]. simpl. intros child Hchild text.
  destruct (getp child "type") as [ty|]; simpl; [|reflexivity].
  destruct (getp child "text") as [tx|]; simpl; [|reflexivity].
  destruct (strict_equals ty (VStr "text") && truthy tx); [reflexivity|].
  destruct (getp child "children") as [sub|] eqn:Hsub; simpl; [|reflexivity].
  destruct (truthy sub && isArray sub) eqn:Harr; [|reflexivity].
  apply andb_true_iff in Harr as [_ Harr].
  pose proof (depth_children _ _ Hsub Harr).
  rewrite (IH m sub) by lia. reflexivity.
Qed.

Lemma concat_strings_app a l : concat_strings (a :: l) = a +:+ concat_strings l.
Proof. reflexivity. Qed.

Lemma append_cons c (a b : string) : String c a +:+ b = String c (a +:+ b).
Proof. reflexivity. Qed.

Lemma append_assoc (a b c : string) : (a +:+ b) +:+ c = a +:+ (b +:+ c).
Proof. induction a as [|x a IH]; [reflexivity|]. rewrite !append_cons, IH. reflexivity. Qed.

Lemma append_nil_r (a : string) : a +:+ "" = a.
Proof. induction a as [|x a IH]; [reflexivity|]. rewrite append_cons, IH. reflexivity. Qed.

Lemma nonEmpty_false s : nonEmpty s = false → s = EmptyString.
Proof. destruct s; [reflexivity|discriminate]. Qed.

(** The loop of [extractTextFromRichText] over nodes that stand for
    documents appends their leaf texts. *)
Lemma extractTextFromRichText_rec_represents n :
  ∀ items ds, Forall2 represents items ds →
    Forall (fun x => depth x ≤ n)%nat items →
    extractTextFromRichText_rec (S n) (VArr items) = Ret (concat_strings (map leafText ds)).
Proof.
  induction n as [|n IH]; intros items ds Hrep Hdepth.
  - destruct Hrep as [|v d items ds Hv _]; [reflexivity|].
    inversion Hdepth as [|? ? Hd _]; subst. destruct Hv; simpl in Hd; lia.
  - cbn [extractTextFromRichText_rec iterate bind].
    enough (H : ∀ acc, for_acc items acc
              (fun text child =>
                 let* ty := getp child "type" in
                 let* tx := getp child "text" in
                 if strict_equals ty (VStr "text") && truthy tx then Ret (text +:+ ToString tx)
                 else let* sub := getp child "children" in
                      if truthy sub && isArray sub then
                        let* inner := extractTextFromRichText_rec (S n) sub in
                        Ret (text +:+ inner)
                      else Ret text)
              = Ret (acc +:+ concat_strings (map leafText ds))) by apply (H EmptyString).
    induction Hrep as [|v d items ds Hv Hrest IHrest]; intros acc.
    + simpl. rewrite append_nil_r. reflexivity.
    + inversion Hdepth as [|? ? Hd Hds]; subst.
      cbn [for_acc map]. rewrite concat_strings_app, <- append_assoc.
      destruct Hv as [props s Hty Htx Hleaf | props kids ks Hnot Hkids Hks].
      * cbn [getp bind]. rewrite Hty, Htx. cbn [strict_equals truthy ToString].
        destruct (nonEmpty s) eqn:Hs.
        -- simpl. apply IHrest, Hds.
        -- cbn [String.eqb Ascii.eqb Bool.eqb andb bind].
           destruct Hleaf as [Hleaf|Hleaf]; [discriminate|].
           rewrite Hleaf, andb_false_r. cbn [leafText].
           rewrite (nonEmpty_false _ Hs), append_nil_r. apply IHrest, Hds.
      * cbn [getp bind]. rewrite Hnot, Hkids. cbn [truthy isArray andb leafText].
        rewrite (IH kids ks Hks).
        -- simpl. apply IHrest, Hds.
        -- pose proof (depth_assoc "children" props) as Hle. rewrite Hkids in Hle.
           pose proof (depth_items kids) as Hlt.
           eapply Forall_impl; [exact Hlt|]. cbn beta. intros x Hx. lia.
Qed.

Lemma extractTextFromRichText_represents items ds :
  Forall2 represents items ds →
  extractTextFromRichText (VArr items) = Ret (concat_strings (map leafText ds)).
Proof.
  intros Hrep. unfold extractTextFromRichText.
  apply extractTextFromRichText_rec_represents; [exact Hrep|].
  eapply Forall_impl; [apply depth_items|]. simpl. intros; lia.
Qed.

Lemma extractTextFromBubble_unfold bubble t richText :
  getp bubble "text" = Ret t →
  getp bubble "richText" = Ret richText →
  extractTextFromBubble bubble =
    let* nonBlank := (if truthy t then let* s := as_string t in Ret (nonEmpty (trim s))
                      else Ret false) in
    let text := if nonBlank then ToString t else EmptyString in
    if negb (nonEmpty text) && truthy richText then
      Ret (try_catch (parseRichText richText) EmptyString)
    else Ret text.
Proof. intros Ht Hr. unfold extractTextFromBubble. rewrite Ht. cbn [bind]. rewrite Hr. reflexivity. Qed.

Lemma extractTextFromBubble_blank bubble t richText :
  getp bubble "text" = Ret t →
  getp bubble "richText" = Ret richText →
  blank t →
  extractTextFromBubble bubble =
    Ret (if truthy richText then try_catch (parseRichText richText) EmptyString
         else EmptyString).
Proof.
  intros Ht Hr Hblank. rewrite (extractTextFromBubble_unfold _ _ _ Ht Hr).
  destruct Hblank as [Hf | (s & -> & Hs)].
  - rewrite Hf. cbn. destruct (truthy richText); reflexivity.
  - cbn [truthy as_string bind]. rewrite Hs.
    destruct (nonEmpty s); cbn; destruct (truthy richText); reflexivity.
Qed.

Lemma nonEmpty_true s : s ≠ EmptyString → nonEmpty s = true.
Proof. destruct s; [congruence|reflexivity]. Qed.

Lemma extractTextFromBubble_text bubble s richText :
  getp bubble "text" = Ret (VStr s) →
  getp bubble "richText" = Ret richText →
  trim s ≠ EmptyString →
  extractTextFromBubble bubble = Ret s.
Proof.
  intros Ht Hr Hs. rewrite (extractTextFromBubble_unfold _ _ _ Ht Hr).
  assert (Hne : nonEmpty s = true).
  { destruct s; [|reflexivity]. exfalso. apply Hs. reflexivity. }
  cbn [truthy as_string bind]. rewrite Hne. cbn [bind].
  rewrite (nonEmpty_true _ Hs). cbn [ToString]. rewrite Hne. reflexivity.
Qed.

Lemma parseRichText_represents richText doc root items ds :
  JSON_parse (ToString richText) = Some doc →
  getp doc "root" = Ret root →
  getp root "children" = Ret (VArr items) →
  Forall2 represents items ds →
  parseRichText richText = Ret (concat_strings (map leafText ds)).
Proof.
  intros Hp Hroot Hkids Hrep. unfold parseRichText, parse. rewrite Hp. cbn [bind].
  rewrite Hroot. cbn [bind].
  assert (Htruthy : truthy root = true).
  { destruct root; cbn [getp] in Hkids; try discriminate; try reflexivity.
    all: injection Hkids as Hk; destruct (String.eqb "children" "length"); discriminate. }
  rewrite Htruthy, Hkids. cbn [bind truthy andb].
  apply extractTextFromRichText_represents, Hrep.
Qed.

(** C5 (as amended). For a bubble whose [text] is falsy or a string,
    extraction does not throw. A text that is not blank (not empty after
    trimming white space) is returned as it is. When the text is blank
    and [richText] is truthy, [richText] is parsed: if the parsed
    document's [root.children] stand for structured documents, the
    result is the concatenation of their leaf texts in document order,
    at any nesting depth; if [JSON.parse] or the walk throws, if the
    parsed document has no [root] or no [root.children], or if
    [richText] is falsy, the result is the empty string. *)
Theorem extractTextFromBubble_precedence (bubble t richText : value) :
  getp bubble "text" = Ret t →
  getp bubble "richText" = Ret richText →
  truthy t = false ∨ (∃ s, t = VStr s) →
  (∃ result, extractTextFromBubble bubble = Ret result) ∧
  (∀ s, t = VStr s → trim s ≠ EmptyString → extractTextFromBubble bubble = Ret s) ∧
  (blank t →
     (∀ doc root items ds,
        truthy richText = true →
        JSON_parse (ToString richText) = Some doc →
        getp doc "root" = Ret root →
        getp root "children" = Ret (VArr items) →
        Forall2 represents items ds →
        extractTextFromBubble bubble = Ret (concat_strings (map leafText ds))) ∧
     (truthy richText = false ∨ JSON_parse (ToString richText) = None ∨
      parseRichText richText = Throw ∨
      (∃ doc root, JSON_parse (ToString richText) = Some doc ∧
         getp doc "root" = Ret root ∧
         (truthy root = false ∨
          ∃ kids, getp root "children" = Ret kids ∧ truthy kids = false)) →
      extractTextFromBubble bubble = Ret EmptyString)).
Proof.
  intros Ht Hr Hshape.
  assert (Hcases : blank t ∨ ∃ s, t = VStr s ∧ trim s ≠ EmptyString).
  { destruct Hshape as [Hf | [s ->]]; [left; left; exact Hf|].
    destruct (String.eq_dec (trim s) EmptyString) as [He|Hne].
    - left. right. exists s. split; [reflexivity|exact He].
    - right. exists s. split; [reflexivity|exact Hne]. }
  split; [|split].
  - destruct Hcases as [Hb | (s & -> & Hs)].
    + rewrite (extractTextFromBubble_blank _ _ _ Ht Hr Hb). eexists; reflexivity.
    + exists s. apply (extractTextFromBubble_text _ _ _ Ht Hr Hs).
  - intros s -> Hs. apply (extractTextFromBubble_text _ _ _ Ht Hr Hs).
  - intros Hb. rewrite (extractTextFromBubble_blank _ _ _ Ht Hr Hb). split.
    + intros doc root items ds Htr Hp Hroot Hkids Hrep. rewrite Htr.
      rewrite (parseRichText_represents _ _ _ _ _ Hp Hroot Hkids Hrep). reflexivity.
    + intros [Hf | [Hp | [Hthrow | (doc & root & Hp & Hroot & Hcase)]]].
      * rewrite Hf. reflexivity.
      * unfold parseRichText, parse. rewrite Hp. destruct (truthy richText); reflexivity.
      * rewrite Hthrow. destruct (truthy richText); reflexivity.
      * unfold parseRichText, parse. rewrite Hp. cbn [bind]. rewrite Hroot. cbn [bind].
        destruct Hcase as [Hr0 | (kids & Hkids & Hk0)].
        -- rewrite Hr0. cbn [bind andb]. destruct (truthy richText); reflexivity.
        -- destruct (truthy root); cbn [bind andb];
             [rewrite Hkids; cbn [bind]; rewrite Hk0|];
             destruct (truthy richText); reflexivity.
Qed.

(** ** Matching order *)





Lemma toLowerCase_same_length query query' :
  toLowerCase query' = toLowerCase query → String.length query' = String.length query.
Proof.
  intros H. rewrite <- (toLowerCase_length query'), H. apply toLowerCase_length.
Qed.

Lemma snippet_query_case text query query' queryLower :
  toLowerCase query' = toLowerCase query →
  snippet text query' queryLower = snippet text query queryLower.
Proof.
  intros H. unfold snippet. rewrite (toLowerCase_same_length _ _ H). reflexivity.
Qed.

Lemma for_return_ext {A R : Type} (xs : list A) (f g : A → outcome (option R)) :
  (∀ x, f x = g x) → for_return xs f = for_return xs g.
Proof.
  intros H. induction xs as [|x xs IH]; cbn [for_return]; [reflexivity|].
  rewrite H, IH. reflexivity.
Qed.

Lemma matchMessages_case messages query query' queryLower :
  toLowerCase query' = toLowerCase query →
  matchMessages messages query' queryLower = matchMessages messages query queryLower.
Proof.
  intros H. unfold matchMessages. apply for_return_ext. intros bubble.
  destruct (getp bubble "text") as [t|]; cbn [bind]; [|reflexivity].
  destruct (includes_opt t queryLower) as [[|]|]; cbn [bind]; try reflexivity.
  rewrite (snippet_query_case _ _ _ _ H). reflexivity.
Qed.






Lemma searchTab_match wsId wsFolder now query queryLower tab r :
  searchTab wsId wsFolder now query queryLower tab = Ret (Some r) →
  matchTab tab query queryLower = Ret (Some (matchingText r)).
Proof.
  unfold searchTab.
  destruct (matchTab tab query queryLower) as [[text|]|]; cbn [bind]; try discriminate.
  destruct (getp tab "tabId") as [tabId|]; cbn [bind]; [|discriminate].
  destruct (getp tab "chatTitle") as [title|]; cbn [bind]; [|discriminate].
  destruct (if truthy title then _ else _) as [fallback|]; cbn [bind]; [|discriminate].
  destruct (getp tab "lastSendTime") as [lastSendTime|]; cbn [bind]; [|discriminate].
  intros [= <-]. reflexivity.
Qed.

Lemma searchComposer_match entry now query queryLower c r :
  searchComposer entry now query queryLower c = Ret (Some r) →
  matchComposer c query queryLower = Ret (Some (matchingText r)).
Proof.
  unfold searchComposer.
  destruct (matchComposer c query queryLower) as [[text|]|]; cbn [bind]; try discriminate.
  destruct (getp c "composerId") as [composerId|]; cbn [bind]; [|discriminate].
  destruct (getp c "text") as [title|]; cbn [bind]; [|discriminate].
  destruct (if truthy title then _ else _) as [fallback|]; cbn [bind]; [|discriminate].
  destruct (getp c "lastUpdatedAt") as [lastUpdatedAt|]; cbn [bind]; [|discriminate].
  destruct (getp c "createdAt") as [createdAt|]; cbn [bind]; [|discriminate].
  intros [= <-]. reflexivity.
Qed.

Lemma searchComposerRow_match now query queryLower projectLayoutsMap projectNameToWorkspaceId
    workspaceEntries bubbleMap row composerData r :
  parse_string (val row) = Ret composerData →
  searchComposerRow now query queryLower projectLayoutsMap projectNameToWorkspaceId
    workspaceEntries bubbleMap row = Ret (Some r) →
  (let* title := composerTitle composerData (composerIdOf row) in
   matchComposerData composerData title bubbleMap query queryLower) =
  Ret (Some (matchingText r)).
Proof.
  intros Hparse. unfold searchComposerRow. rewrite Hparse. cbn [bind].
  destruct (determineProjectForConversation _ _ _ _ _ _) as [projectId|]; cbn [bind];
    [|discriminate].
  destruct (composerTitle _ _) as [title|]; cbn [bind]; [|discriminate].
  destruct (matchComposerData _ _ _ _ _) as [[text|]|]; cbn [bind]; try discriminate.
  destruct projectId as [id|]; [|discriminate].
  destruct (nonEmpty id); [|discriminate].
  destruct (getp composerData "lastUpdatedAt"); cbn [bind]; [|discriminate].
  destruct (getp composerData "createdAt"); cbn [bind]; [|discriminate].
  intros [= <-]. reflexivity.
Qed.



(** ** Project resolution *)












(** ** Where the results of each scan come from *)

Lemma pushUntilThrow_In {A : Type} (xs : list A) (body : A → outcome (option SearchResult)) r :
  In r (pushUntilThrow xs body) → ∃ x, In x xs ∧ body x = Ret (Some r).
Proof.
  induction xs as [|x xs IH]; cbn [pushUntilThrow]; [intros []|].
  destruct (body x) as [[r'|]|] eqn:Hx.
  - intros [<-|Hin].
    + exists x. split; [left; reflexivity|exact Hx].
    + destruct (IH Hin) as (y & Hy & Hb). exists y. split; [right; exact Hy|exact Hb].
  - intros Hin. destruct (IH Hin) as (y & Hy & Hb). exists y. split; [right; exact Hy|exact Hb].
  - intros [].
Qed.

Lemma searchTab_fields wsId wsFolder now query queryLower tab r :
  searchTab wsId wsFolder now query queryLower tab = Ret (Some r) →
  workspaceId r = wsId ∧ workspaceFolder r = wsFolder ∧ type r = chat.
Proof.
  unfold searchTab.
  destruct (matchTab tab query queryLower) as [[text|]|]; cbn [bind]; try discriminate.
  destruct (getp tab "tabId") as [tabId|]; cbn [bind]; [|discriminate].
  destruct (getp tab "chatTitle") as [title|]; cbn [bind]; [|discriminate].
  destruct (if truthy title then _ else _) as [fallback|]; cbn [bind]; [|discriminate].
  destruct (getp tab "lastSendTime") as [lastSendTime|]; cbn [bind]; [|discriminate].
  intros [= <-]. auto.
Qed.

Lemma searchComposer_fields entry now query queryLower c r :
  searchComposer entry now query queryLower c = Ret (Some r) →
  workspaceId r = name entry ∧ workspaceFolder r = Some (folder entry) ∧ type r = composer.
Proof.
  unfold searchComposer.
  destruct (matchComposer c query queryLower) as [[text|]|]; cbn [bind]; try discriminate.
  destruct (getp c "composerId") as [composerId|]; cbn [bind]; [|discriminate].
  destruct (getp c "text") as [title|]; cbn [bind]; [|discriminate].
  destruct (if truthy title then _ else _) as [fallback|]; cbn [bind]; [|discriminate].
  destruct (getp c "lastUpdatedAt") as [lastUpdatedAt|]; cbn [bind]; [|discriminate].
  destruct (getp c "createdAt") as [createdAt|]; cbn [bind]; [|discriminate].
  intros [= <-]. auto.
Qed.

Lemma searchChatData_fields wsId wsFolder now query queryLower chatResult r :
  In r (searchChatData wsId wsFolder now query queryLower chatResult) →
  workspaceId r = wsId ∧ workspaceFolder r = wsFolder ∧ type r = chat.
Proof.
  unfold searchChatData. destruct chatResult as [v|]; [|intros []].
  destruct (nonEmpty v); [|intros []].
  destruct (let* chatData := parse_string v in getp chatData "tabs") as [tabs|]; [|intros []].
  destruct (truthy tabs && isArray tabs); [|intros []].
  intros Hin. apply pushUntilThrow_In in Hin as (tab & _ & Htab).
  exact (searchTab_fields _ _ _ _ _ _ _ Htab).
Qed.

Lemma searchComposerData_fields entry now query queryLower composerResult r :
  In r (searchComposerData entry now query queryLower composerResult) →
  workspaceId r = name entry ∧ workspaceFolder r = Some (folder entry) ∧ type r = composer.
Proof.
  unfold searchComposerData. destruct composerResult as [v|]; [|intros []].
  destruct (nonEmpty v); [|intros []].
  destruct (let* composerData := parse_string v in getp composerData "allComposers")
    as [allComposers|]; [|intros []].
  destruct (truthy allComposers && isArray allComposers); [|intros []].
  intros Hin. apply pushUntilThrow_In in Hin as (c & _ & Hc).
  exact (searchComposer_fields _ _ _ _ _ _ Hc).
Qed.

Lemma searchComposerRow_fields now query queryLower projectLayoutsMap projectNameToWorkspaceId
    workspaceEntries bubbleMap row r :
  searchComposerRow now query queryLower projectLayoutsMap projectNameToWorkspaceId
    workspaceEntries bubbleMap row = Ret (Some r) →
  type r = composer ∧
  ∃ composerData,
    parse_string (val row) = Ret composerData ∧
    determineProjectForConversation composerData (composerIdOf row) projectLayoutsMap
      projectNameToWorkspaceId workspaceEntries bubbleMap = Ret (Some (workspaceId r)).
Proof.
  unfold searchComposerRow.
  destruct (parse_string (val row)) as [composerData|]; cbn [bind]; [|discriminate].
  destruct (determineProjectForConversation _ _ _ _ _ _) as [projectId|] eqn:Hproj;
    cbn [bind]; [|discriminate].
  destruct (composerTitle _ _) as [title|]; cbn [bind]; [|discriminate].
  destruct (matchComposerData _ _ _ _ _) as [[text|]|]; cbn [bind]; try discriminate.
  destruct projectId as [id|]; [|discriminate].
  destruct (nonEmpty id); [|discriminate].
  destruct (getp composerData "lastUpdatedAt"); cbn [bind]; [|discriminate].
  destruct (getp composerData "createdAt"); cbn [bind]; [|discriminate].
  intros [= <-]. split; [reflexivity|]. exists composerData. split; [reflexivity|exact Hproj].
Qed.

Lemma searchComposerRows_In now query queryLower projectLayoutsMap projectNameToWorkspaceId
    workspaceEntries bubbleMap rows r :
  In r (searchComposerRows now query queryLower projectLayoutsMap projectNameToWorkspaceId
          workspaceEntries bubbleMap rows) →
  ∃ row, In row rows ∧
    searchComposerRow now query queryLower projectLayoutsMap projectNameToWorkspaceId
      workspaceEntries bubbleMap row = Ret (Some r).
Proof.
  unfold searchComposerRows. rewrite in_flat_map. intros (row & Hrow & Hin).
  exists row. split; [exact Hrow|].
  destruct (searchComposerRow _ _ _ _ _ _ _ row) as [[r'|]|];
    [destruct Hin as [<-|[]]; reflexivity | destruct Hin | destruct Hin].
Qed.



(** ** Ask results of the unified store *)

Lemma searchGlobalStorage_kinds g ty now query queryLower projectNameToWorkspaceId
    workspaceEntries r :
  In r (fst (searchGlobalStorage g ty now query queryLower projectNameToWorkspaceId
               workspaceEntries)) →
  type r = composer ∨
  (type r = chat ∧ workspaceId r = "global" ∧ workspaceFolder r = None).
Proof.
  unfold searchGlobalStorage. destruct (g_opens g); [|intros []].
  destruct (g_bubbleRows g) as [bubbleRows|]; [|intros []].
  destruct (g_contextRows g) as [contextRows|]; [|intros []].
  destruct (if wants ty "composer" then g_composerRows g else Ret []) as [composerRows|];
    [|intros []].
  assert (Hagent : ∀ r, In r (searchComposerRows now query queryLower
                                (buildProjectLayoutsMap contextRows) projectNameToWorkspaceId
                                workspaceEntries (buildBubbleMap bubbleRows) composerRows) →
                        type r = composer).
  { intros r' Hin. apply searchComposerRows_In in Hin as (row & _ & Hrow).
    apply searchComposerRow_fields in Hrow as [H _]. exact H. }
  destruct (if wants ty "chat" then g_chatData g else Ret None) as [chatResult|]; cbn [fst].
  - rewrite in_app_iff. intros [Hin|Hin]; [left; apply Hagent, Hin|right].
    apply searchChatData_fields in Hin as (H1 & H2 & H3). auto.
  - intros Hin. left. apply Hagent, Hin.
Qed.

(** C10. Every ask result ([type] chat) that the scan of the unified store
    pushes has [workspaceId] ['global'] and no [workspaceFolder], whatever
    the workspace entries and the folder index are; only the agent results
    ([type] composer) carry a resolved workspace. *)
Theorem unified_ask_results_global (g : GlobalStore) (ty now query : string)
    (projectNameToWorkspaceId : gmap string string)
    (workspaceEntries : list WorkspaceEntry) (r : SearchResult) :
  In r (fst (searchGlobalStorage g ty now query (toLowerCase query)
               projectNameToWorkspaceId workspaceEntries)) →
  type r = chat →
  workspaceId r = "global" ∧ workspaceFolder r = None ∧
  ∀ projectNameToWorkspaceId' workspaceEntries',
    In r (fst (searchGlobalStorage g ty now query (toLowerCase query)
                 projectNameToWorkspaceId' workspaceEntries')).
Proof.
  intros Hin Hchat.
  destruct (searchGlobalStorage_kinds _ _ _ _ _ _ _ _ Hin) as [Hc|(_ & H1 & H2)]; [congruence|].
  split; [exact H1|]. split; [exact H2|].
  intros index' entries'. revert Hin. unfold searchGlobalStorage.
  destruct (g_opens g); [|intros []].
  destruct (g_bubbleRows g) as [bubbleRows|]; [|intros []].
  destruct (g_contextRows g) as [contextRows|]; [|intros []].
  destruct (if wants ty "composer" then g_composerRows g else Ret []) as [composerRows|];
    [|intros []].
  assert (Hagent : ∀ index entries, In r (searchComposerRows now query (toLowerCase query)
                                (buildProjectLayoutsMap contextRows) index
                                entries (buildBubbleMap bubbleRows) composerRows) → False).
  { intros index entries Hr. apply searchComposerRows_In in Hr as (row & _ & Hrow).
    apply searchComposerRow_fields in Hrow as [H _]. congruence. }
  destruct (if wants ty "chat" then g_chatData g else Ret None) as [chatResult'|]; cbn [fst].
  - rewrite !in_app_iff. intros [Hr|Hr]; [destruct (Hagent _ _ Hr)|right; exact Hr].
  - intros Hr. destruct (Hagent _ _ Hr).
Qed.

(** ** Deduplication *)

Lemma strict_equals_sym a b : strict_equals a b = strict_equals b a.
Proof.
  destruct a, b; cbn [strict_equals]; try reflexivity.
  - destruct b, b0; reflexivity.
  - apply Z.eqb_sym.
  - apply String.eqb_sym.
Qed.

Lemma findIndex_from_seen (index : nat) (result : SearchResult) seen rest k :
  (k + length seen = index)%nat →
  findIndex_from (fun j r => sameChatId j index r result) k (seen ++ result :: rest) =
  if existsb (fun s => strict_equals (chatId s) (chatId result)) seen
  then match findIndex_from (fun j r => sameChatId j index r result) k (seen ++ result :: rest) with
       | Some j => if (j <? index)%nat then Some j else None
       | None => None
       end
  else Some index.
Proof.
  revert k. induction seen as [|s seen IH]; intros k Hk; cbn [app findIndex_from existsb length] in *.
  - unfold sameChatId. replace k with index by lia. rewrite Nat.eqb_refl. reflexivity.
  - unfold sameChatId at 1 3. destruct (Nat.eqb k index) eqn:E; [apply Nat.eqb_eq in E; lia|].
    destruct (strict_equals (chatId s) (chatId result)) eqn:Es; cbn [orb].
    + assert ((k <? index)%nat = true) as -> by (apply Nat.ltb_lt; lia). reflexivity.
    + apply IH. lia.
Qed.

Lemma keeps_iff_unseen (result : SearchResult) seen rest :
  match findIndex (fun j r => sameChatId j (length seen) r result) (seen ++ result :: rest) with
  | Some j => Nat.eqb (length seen) j
  | None => false
  end = negb (existsb (fun s => strict_equals (chatId s) (chatId result)) seen).
Proof.
  unfold findIndex. rewrite (findIndex_from_seen (length seen) result seen rest O) by lia.
  destruct (existsb _ seen); cbn [negb]; [|apply Nat.eqb_refl].
  destruct (findIndex_from _ _ _) as [j|]; [|reflexivity].
  destruct (j <? length seen)%nat eqn:E; [|reflexivity].
  apply Nat.ltb_lt in E. apply Nat.eqb_neq. lia.
Qed.

Lemma filter_from_keepFirst results seen l :
  results = seen ++ l →
  filter_from (fun index result =>
    match findIndex (fun j r => sameChatId j index r result) results with
    | Some j => Nat.eqb index j
    | None => false
    end) (length seen) l = keepFirst seen l.
Proof.
  revert seen. induction l as [|r rest IH]; intros seen Hres; cbn [filter_from keepFirst];
    [reflexivity|].
  subst results. rewrite keeps_iff_unseen.
  assert (Hnext : seen ++ r :: rest = (seen ++ [r]) ++ rest) by (rewrite <- app_assoc; reflexivity).
  specialize (IH (seen ++ [r])). rewrite length_app in IH. cbn [length] in IH.
  replace (length seen + 1)%nat with (S (length seen)) in IH by lia.
  rewrite (IH Hnext).
  destruct (existsb _ seen); reflexivity.
Qed.

Lemma removeDuplicates_keepFirst results : removeDuplicates results = keepFirst [] results.
Proof. unfold removeDuplicates. apply (filter_from_keepFirst results [] results). reflexivity. Qed.

Lemma existsb_false_Forall {A : Type} (p : A → bool) l :
  existsb p l = false → Forall (fun x => p x = false) l.
Proof.
  induction l as [|x l IH]; cbn [existsb]; [constructor|].
  intros H. apply orb_false_iff in H as [H1 H2]. constructor; auto.
Qed.

Lemma keepFirst_first seen l r :
  In r (keepFirst seen l) →
  ∃ before after, l = before ++ r :: after ∧
    Forall (fun s => strict_equals (chatId s) (chatId r) = false) (seen ++ before).
Proof.
  revert seen. induction l as [|x l IH]; intros seen; cbn [keepFirst]; [intros []|].
  assert (Hrec : In r (keepFirst (seen ++ [x]) l) →
                 ∃ before after, x :: l = before ++ r :: after ∧
                   Forall (fun s => strict_equals (chatId s) (chatId r) = false) (seen ++ before)).
  { intros Hin. destruct (IH _ Hin) as (before & after & -> & Hall).
    exists (x :: before), after. split; [reflexivity|].
    rewrite <- app_assoc in Hall. exact Hall. }
  destruct (existsb _ seen) eqn:E; [exact Hrec|].
  intros [<-|Hin]; [|exact (Hrec Hin)].
  exists [], l. split; [reflexivity|]. rewrite app_nil_r.
  apply existsb_false_Forall, E.
Qed.

Lemma keepFirst_unseen seen l r :
  In r (keepFirst seen l) →
  Forall (fun s => strict_equals (chatId s) (chatId r) = false) seen.
Proof.
  intros Hin. destruct (keepFirst_first _ _ _ Hin) as (before & after & _ & Hall).
  apply Forall_app in Hall as [H _]. exact H.
Qed.

Lemma keepFirst_distinct seen l : pairwiseDistinct (keepFirst seen l).
Proof.
  revert seen. induction l as [|x l IH]; intros seen; cbn [keepFirst]; [exact I|].
  destruct (existsb _ seen); [apply IH|].
  cbn [pairwiseDistinct]. split; [|apply IH].
  apply Forall_forall. intros s Hs. apply list_elem_of_In, keepFirst_unseen in Hs.
  apply Forall_app in Hs as [_ Hs]. inversion Hs; subst. assumption.
Qed.

Lemma keepFirst_covers seen l r :
  In r l →
  (∃ s, In s seen ∧ strict_equals (chatId s) (chatId r) = true) ∨
  (∃ r', In r' (keepFirst seen l) ∧ (r' = r ∨ strict_equals (chatId r') (chatId r) = true)).
Proof.
  revert seen. induction l as [|x l IH]; intros seen; [intros []|].
  cbn [keepFirst]. intros [->|Hin].
  - destruct (existsb _ seen) eqn:E.
    + left. apply existsb_exists in E. exact E.
    + right. exists r. split; [left; reflexivity|left; reflexivity].
  - destruct (IH (seen ++ [x]) Hin) as [(s & Hs & Heq)|(r' & Hr' & Hrel)].
    + apply in_app_iff in Hs as [Hs|[<-|[]]].
      * left. exists s. auto.
      * destruct (existsb (fun s => strict_equals (chatId s) (chatId x)) seen) eqn:E.
        -- apply existsb_exists in E as (s & Hs & Hsx).
           destruct (chatId s) eqn:Ecs, (chatId x) eqn:Ecx; cbn [strict_equals] in Hsx;
             try discriminate; left; exists s; (split; [exact Hs|]);
             rewrite Ecs; destruct (chatId r); cbn [strict_equals] in *; try discriminate;
             try reflexivity.
           ++ apply Bool.eqb_prop in Hsx. subst. exact Heq.
           ++ apply Z.eqb_eq in Hsx. subst. exact Heq.
           ++ apply String.eqb_eq in Hsx. subst. exact Heq.
        -- right. exists x. split; [left; reflexivity|right; exact Heq].
    + right. exists r'. split; [|exact Hrel].
      destruct (existsb _ seen); [exact Hr'|right; exact Hr'].
Qed.

(** ** Ranking *)

Lemma sort_insert_In {A : Type} (cmp : A → A → option Z) x l y :
  In y (sort_insert cmp x l) ↔ y = x ∨ In y l.
Proof.
  induction l as [|z l IH]; cbn [sort_insert].
  - cbn. intuition.
  - destruct (default 0 (cmp x z) <=? 0); cbn [In]; [intuition|]. rewrite IH. intuition.
Qed.

Lemma Array_sort_In {A : Type} (cmp : A → A → option Z) l y :
  In y (Array_sort cmp l) ↔ In y l.
Proof.
  induction l as [|x l IH]; cbn [Array_sort]; [reflexivity|].
  rewrite sort_insert_In, IH. cbn [In]. intuition.
Qed.

Lemma pairwiseDistinct_insert cmp x l :
  Forall (fun s => strict_equals (chatId x) (chatId s) = false) l →
  pairwiseDistinct l → pairwiseDistinct (sort_insert cmp x l).
Proof.
  induction l as [|z l IH]; cbn [sort_insert]; intros Hx Hl.
  - cbn. auto.
  - destruct (default 0 (cmp x z) <=? 0); [cbn [pairwiseDistinct]; auto|].
    inversion Hx as [|? ? Hxz Hxl]; subst. destruct Hl as [Hz Hl].
    cbn [pairwiseDistinct]. split; [|apply IH; assumption].
    apply Forall_forall. intros s Hs. apply list_elem_of_In, sort_insert_In in Hs as [->|Hs].
    + rewrite strict_equals_sym. exact Hxz.
    + rewrite Forall_forall in Hz. apply Hz, list_elem_of_In, Hs.
Qed.

Lemma pairwiseDistinct_sort cmp l :
  pairwiseDistinct l → pairwiseDistinct (Array_sort cmp l).
Proof.
  induction l as [|x l IH]; cbn [Array_sort]; [auto|].
  intros [Hx Hl]. apply pairwiseDistinct_insert; [|apply IH, Hl].
  apply Forall_forall. intros s Hs. apply list_elem_of_In, Array_sort_In in Hs.
  rewrite Forall_forall in Hx. apply Hx, list_elem_of_In, Hs.
Qed.

Lemma pairwiseDistinct_lookup l : pairwiseDistinct l → distinctChatIds l.
Proof.
  induction l as [|x l IH]; intros Hd i j a b Hij Ha Hb.
  - destruct i; discriminate.
  - destruct Hd as [Hx Hl]. destruct j as [|j]; [lia|]. cbn in Hb.
    destruct i as [|i]; cbn in Ha.
    + injection Ha as <-. rewrite Forall_forall in Hx. apply Hx.
      eapply list_elem_of_lookup_2. exact Hb.
    + apply (IH Hl i j a b); [lia|assumption|assumption].
Qed.

Lemma sort_insert_sorted x l :
  timeOf (timestamp x) ≠ None →
  Forall (fun r => timeOf (timestamp r) ≠ None) l →
  Sorted newerOrEqual l → Sorted newerOrEqual (sort_insert compareResults x l).
Proof.
  intros Hx Hl Hs. induction Hs as [|z l Hs IH Hhd]; cbn [sort_insert].
  - repeat constructor.
  - inversion Hl as [|? ? Hz Hl']; subst.
    unfold compareResults at 1.
    destruct (timeOf (timestamp x)) as [tx|] eqn:Ex; [|congruence].
    destruct (timeOf (timestamp z)) as [tz|] eqn:Ez; [|congruence].
    change (default 0 (Some (tz - tx))) with (tz - tx). destruct (tz - tx <=? 0) eqn:E.
    + apply Z.leb_le in E. constructor; [constructor; assumption|].
      constructor. unfold newerOrEqual. rewrite Ex, Ez. lia.
    + apply Z.leb_gt in E. constructor; [apply IH, Hl'|].
      destruct l as [|y l]; cbn [sort_insert].
      * constructor. unfold newerOrEqual. rewrite Ex, Ez. lia.
      * destruct (default 0 (compareResults x y) <=? 0).
        -- constructor. unfold newerOrEqual. rewrite Ex, Ez. lia.
        -- inversion Hhd; subst. constructor. assumption.
Qed.

Lemma Array_sort_sorted l :
  Forall (fun r => timeOf (timestamp r) ≠ None) l →
  Sorted newerOrEqual (Array_sort compareResults l).
Proof.
  induction 1 as [|x l Hx Hl IH]; cbn [Array_sort]; [constructor|].
  apply sort_insert_sorted; [exact Hx| |exact IH].
  apply Forall_forall. intros r Hr. apply list_elem_of_In, Array_sort_In in Hr.
  rewrite Forall_forall in Hl. apply Hl, list_elem_of_In, Hr.
Qed.

Lemma Sorted_adjacent l : Sorted newerOrEqual l → sortedByRecency l.
Proof.
  induction 1 as [|x l Hs IH Hhd]; intros i a b Ha Hb.
  - destruct i; discriminate.
  - destruct i as [|i]; cbn in Ha, Hb.
    + injection Ha as <-. destruct l as [|y l]; [discriminate|].
      cbn in Hb. injection Hb as <-. inversion Hhd; subst. assumption.
    + apply (IH i a b Ha Hb).
Qed.

(** ** The shape of a successful response *)

Lemma searchWorkspaceStores_flat_map w ty query queryLower workspaceEntries :
  fst (searchWorkspaceStores w ty query queryLower workspaceEntries) =
  flat_map (fun entry => fst (searchWorkspaceStore w ty query queryLower entry)) workspaceEntries.
Proof.
  induction workspaceEntries as [|entry rest IH]; cbn [searchWorkspaceStores flat_map];
    [reflexivity|].
  destruct (searchWorkspaceStore w ty query queryLower entry) as [r1 e1].
  destruct (searchWorkspaceStores w ty query queryLower rest) as [r2 e2].
  cbn [fst] in *. rewrite IH. reflexivity.
Qed.

Lemma foundResults_scan_order w request workspaceEntries :
  foundResults w request workspaceEntries =
  unifiedResults w request workspaceEntries ++
  flat_map (legacyResults w request) workspaceEntries.
Proof.
  unfold foundResults, collectResults, unifiedResults, legacyResults.
  rewrite <- searchWorkspaceStores_flat_map.
  destruct (w_globalStore w) as [g|].
  - destruct (searchGlobalStorage _ _ _ _ _ _ _) as [r1 e1].
    destruct (searchWorkspaceStores _ _ _ _ _) as [r2 e2]. reflexivity.
  - destruct (searchWorkspaceStores _ _ _ _ _) as [r2 e2]. reflexivity.
Qed.

Lemma unifiedResults_agent_then_ask w request workspaceEntries :
  ∃ agent ask,
    unifiedResults w request workspaceEntries = agent ++ ask ∧
    Forall (fun r => type r = composer) agent ∧
    Forall (fun r => type r = chat) ask.
Proof.
  unfold unifiedResults. destruct (w_globalStore w) as [g|];
    [|exists [], []; repeat split; constructor].
  unfold searchGlobalStorage. destruct (g_opens g); [|exists [], []; repeat split; constructor].
  destruct (g_bubbleRows g) as [bubbleRows|]; [|exists [], []; repeat split; constructor].
  destruct (g_contextRows g) as [contextRows|]; [|exists [], []; repeat split; constructor].
  destruct (if wants _ "composer" then g_composerRows g else Ret []) as [composerRows|];
    [|exists [], []; repeat split; constructor].
  assert (Hagent : Forall (fun r => type r = composer)
            (searchComposerRows (w_now w) (queryOf request) (toLowerCase (queryOf request))
               (buildProjectLayoutsMap contextRows)
               (buildProjectNameToWorkspaceId workspaceEntries) workspaceEntries
               (buildBubbleMap bubbleRows) composerRows)).
  { apply Forall_forall. intros r Hr.
    apply list_elem_of_In, searchComposerRows_In in Hr as (row & _ & Hrow).
    apply searchComposerRow_fields in Hrow as [H _]. exact H. }
  destruct (if wants _ "chat" then g_chatData g else Ret None) as [chatResult|]; cbn [fst].
  - eexists _, _. split; [reflexivity|]. split; [exact Hagent|].
    apply Forall_forall. intros r Hr.
    apply list_elem_of_In, searchChatData_fields in Hr as (_ & _ & H). exact H.
  - eexists _, []. split; [symmetry; apply app_nil_r|]. split; [exact Hagent|constructor].
Qed.

Lemma checkedEntries_names raw workspaceEntries :
  checkedEntries raw = Ret workspaceEntries → map name workspaceEntries = map fst raw.
Proof.
  revert workspaceEntries. induction raw as [|[n f] raw IH]; intros es; cbn [checkedEntries].
  - intros [= <-]. reflexivity.
  - destruct (if truthy f then as_string f else Ret EmptyString); cbn [bind]; [|discriminate].
    destruct (checkedEntries raw) as [es'|]; cbn [bind]; [|discriminate].
    intros [= <-]. cbn [map name fst]. rewrite (IH es' eq_refl). reflexivity.
Qed.

Lemma readWorkspaceEntries_names w entries :
  map fst (readWorkspaceEntries w entries) = map d_name (List.filter (hasDescriptor w) entries).
Proof.
  unfold readWorkspaceEntries.
  induction entries as [|entry entries IH]; cbn [flat_map]; [reflexivity|].
  rewrite map_app, IH. cbn [List.filter]. unfold hasDescriptor at 2.
  destruct (d_isDirectory entry); cbn [andb app map]; [|reflexivity].
  destruct (w_workspaceJson w (d_name entry)); reflexivity.
Qed.

Lemma GET_ok w request rs :
  fst (GET w request) = json None (Some rs) 200 →
  ∃ workspaceEntries,
    scanWorkspaces w = Ret workspaceEntries ∧
    rs = Array_sort compareResults (removeDuplicates (foundResults w request workspaceEntries)).
Proof.
  unfold GET. cbv zeta. destruct (negb (nonEmpty (queryOf request))); [discriminate|].
  destruct (scanWorkspaces w) as [workspaceEntries|]; [|discriminate].
  destruct (collectResults _ _ _ _ _) as [found events] eqn:E. cbn [fst].
  intros [= <-]. exists workspaceEntries. split; [reflexivity|].
  unfold foundResults. rewrite E. reflexivity.
Qed.

(** C3. In a successful response no two entries share a [chatId], and
    each entry is the first one with its [chatId] among everything that
    was pushed, in the order of the scan: the agent conversations of the
    unified store, then its ask conversations, then the legacy stores in
    the order in which the workspaces were enumerated. Every [chatId]
    that was pushed is still there. *)
Theorem GET_deduplicates (w : World) (request : Request) (rs : list SearchResult) :
  fst (GET w request) = json None (Some rs) 200 →
  ∃ dirents workspaceEntries agent ask,
    w_readdir w = Ret dirents ∧
    scanWorkspaces w = Ret workspaceEntries ∧
    map name workspaceEntries = map d_name (List.filter (hasDescriptor w) dirents) ∧
    unifiedResults w request workspaceEntries = agent ++ ask ∧
    Forall (fun r => type r = composer) agent ∧
    Forall (fun r => type r = chat) ask ∧
    let found := agent ++ ask ++ flat_map (legacyResults w request) workspaceEntries in
    foundResults w request workspaceEntries = found ∧
    distinctChatIds rs ∧
    (∀ r, In r rs → firstOccurrence found r) ∧
    (∀ r, In r found →
       ∃ r', In r' rs ∧ (r' = r ∨ strict_equals (chatId r') (chatId r) = true)).
Proof.
  intros Hok. destruct (GET_ok _ _ _ Hok) as (workspaceEntries & Hscan & ->).
  destruct (unifiedResults_agent_then_ask w request workspaceEntries)
    as (agent & ask & Hsplit & Hagent & Hask).
  pose proof Hscan as Hscan'. unfold scanWorkspaces in Hscan'.
  destruct (w_readdir w) as [dirents|] eqn:Hdir; cbn [bind] in Hscan'; [|discriminate].
  exists dirents, workspaceEntries, agent, ask.
  split; [reflexivity|]. split; [exact Hscan|].
  split; [rewrite (checkedEntries_names _ _ Hscan'); apply readWorkspaceEntries_names|].
  split; [exact Hsplit|]. split; [exact Hagent|]. split; [exact Hask|].
  cbv zeta.
  assert (Hfound : foundResults w request workspaceEntries =
                   agent ++ ask ++ flat_map (legacyResults w request) workspaceEntries).
  { rewrite foundResults_scan_order, Hsplit, <- app_assoc. reflexivity. }
  split; [exact Hfound|]. rewrite <- Hfound. rewrite removeDuplicates_keepFirst.
  split; [|split].
  - apply pairwiseDistinct_lookup, pairwiseDistinct_sort, keepFirst_distinct.
  - intros r Hr. apply Array_sort_In, keepFirst_first in Hr as (before & after & Heq & Hall).
    exists before, after. split; assumption.
  - intros r Hr. destruct (keepFirst_covers [] _ _ Hr) as [(s & [] & _)|(r' & Hr' & Hrel)].
    exists r'. split; [apply Array_sort_In, Hr'|exact Hrel].
Qed.

(** C4 (as amended). When the timestamp of every entry of a successful
    response is a number or a string that parses as a date-time, the
    entries are in non-increasing order of time: each entry is at least
    as recent as the next one. *)
Theorem GET_sorted_by_recency (w : World) (request : Request) (rs : list SearchResult) :
  fst (GET w request) = json None (Some rs) 200 →
  (∀ r, In r rs → timeOf (timestamp r) ≠ None) →
  sortedByRecency rs.
Proof.
  intros Hok Htimes. destruct (GET_ok _ _ _ Hok) as (workspaceEntries & _ & ->).
  apply Sorted_adjacent, Array_sort_sorted, Forall_forall.
  intros r Hr. apply Htimes, Array_sort_In, list_elem_of_In, Hr.
Qed.

(** ** Failure isolation *)















(** ** Missing query *)

(** C9. When the query parameter is missing or empty the response is the
    client error with its fixed message, and nothing is scanned or
    opened; with any other query the handler goes on to scan the
    workspace directory. *)
Theorem GET_requires_query (w : World) (request : Request) :
  (q request = None ∨ q request = Some EmptyString →
     GET w request = (json (Some "No search query provided") None 400, [])) ∧
  (∀ query, q request = Some query → query ≠ EmptyString →
     status (fst (GET w request)) ≠ 400 ∧
     ∃ events, snd (GET w request) = EvReaddir :: events).
Proof.
  split.
  - intros H. unfold GET, queryOf. destruct H as [-> | ->]; reflexivity.
  - intros query Hq Hne. unfold GET, queryOf. cbv zeta. rewrite Hq.
    change (default EmptyString (Some query)) with query.
    rewrite (nonEmpty_true _ Hne). cbn [negb].
    destruct (scanWorkspaces w) as [workspaceEntries|].
    + destruct (collectResults _ _ _ _ _) as [found events]. cbn [fst snd status json].
      split; [discriminate|]. exists events. reflexivity.
    + cbn [fst snd status json]. split; [discriminate|]. exists []. reflexivity.
Qed.

(** ** Store handles *)

Lemma store_id_eqb_refl d : store_id_eqb d d = true.
Proof. destruct d; cbn [store_id_eqb]; [reflexivity|apply String.eqb_refl]. Qed.

Lemma releasesHandles_open_close d rest :
  releasesHandles [] (EvOpen d :: EvClose d :: rest) = releasesHandles [] rest.
Proof. cbn [releasesHandles List.filter]. rewrite store_id_eqb_refl. reflexivity. Qed.

(** The scan of the unified store closes its handle on every path. *)
Lemma searchGlobalStorage_events g ty now query queryLower projectNameToWorkspaceId
    workspaceEntries :
  snd (searchGlobalStorage g ty now query queryLower projectNameToWorkspaceId
         workspaceEntries) =
  if g_opens g then [EvOpen GlobalDb; EvClose GlobalDb] else [].
Proof.
  unfold searchGlobalStorage. destruct (g_opens g); [|reflexivity].
  destruct (g_bubbleRows g); [|reflexivity].
  destruct (g_contextRows g); [|reflexivity].
  destruct (if wants ty "composer" then g_composerRows g else Ret []); [|reflexivity].
  destruct (if wants ty "chat" then g_chatData g else Ret None); reflexivity.
Qed.

(** The scan of a legacy store closes its handle unless a query throws. *)
Lemma searchWorkspaceStore_events w ty query queryLower entry :
  snd (searchWorkspaceStore w ty query queryLower entry) =
  match w_store w (name entry) with
  | Some db =>
      if s_opens db then
        match (if wants ty "chat" then s_chatData db else Ret None),
              (if wants ty "composer" then s_composerData db else Ret None) with
        | Ret _, Ret _ => [EvOpen (WorkspaceDb (name entry)); EvClose (WorkspaceDb (name entry))]
        | _, _ => [EvOpen (WorkspaceDb (name entry))]
        end
      else []
  | None => []
  end.
Proof.
  unfold searchWorkspaceStore. destruct (w_store w (name entry)) as [db|]; [|reflexivity].
  destruct (s_opens db); [|reflexivity].
  destruct (if wants ty "chat" then s_chatData db else Ret None); [|reflexivity].
  destruct (if wants ty "composer" then s_composerData db else Ret None); reflexivity.
Qed.

(** X1. When neither query of any legacy store that opens throws, every
    handle is released in time: no store is opened while a handle is
    open, and no handle is open when the response is sent. *)
Lemma GET_releases_handles_when_queries_succeed w request :
  (∀ n db, w_store w n = Some db → s_opens db = true →
     s_chatData db ≠ Throw ∧ s_composerData db ≠ Throw) →
  releasesHandles [] (snd (GET w request)) = true.
Proof.
  intros Hok. unfold GET. cbv zeta.
  destruct (negb (nonEmpty (queryOf request))); [reflexivity|].
  destruct (scanWorkspaces w) as [workspaceEntries|]; [|reflexivity].
  destruct (collectResults _ _ _ _ _) as [found events] eqn:E. cbn [snd releasesHandles].
  assert (Hev : events = snd (collectResults w (scopeOf request) (queryOf request)
                                (toLowerCase (queryOf request)) workspaceEntries))
    by (rewrite E; reflexivity).
  rewrite Hev. clear E Hev. unfold collectResults.
  assert (Hlegacy : ∀ es,
            releasesHandles []
              (snd (searchWorkspaceStores w (scopeOf request) (queryOf request)
                      (toLowerCase (queryOf request)) es)) = true).
  { induction es as [|entry es IH]; cbn [searchWorkspaceStores]; [reflexivity|].
    pose proof (searchWorkspaceStore_events w (scopeOf request) (queryOf request)
                  (toLowerCase (queryOf request)) entry) as He.
    destruct (searchWorkspaceStore _ _ _ _ entry) as [r1 e1].
    destruct (searchWorkspaceStores _ _ _ _ es) as [r2 e2]. cbn [snd] in *.
    rewrite He. destruct (w_store w (name entry)) as [db|] eqn:Hdb; [|exact IH].
    destruct (s_opens db) eqn:Hopen; [|exact IH].
    destruct (Hok _ _ Hdb Hopen) as [Hc Hd].
    destruct (wants _ "chat"), (wants _ "composer");
      destruct (s_chatData db); destruct (s_composerData db); try congruence;
      cbn [app]; rewrite releasesHandles_open_close; exact IH. }
  specialize (Hlegacy workspaceEntries).
  destruct (searchWorkspaceStores _ _ _ _ workspaceEntries) as [r2 e2]. cbn [snd] in Hlegacy.
  destruct (w_globalStore w) as [g|]; [|exact Hlegacy].
  pose proof (searchGlobalStorage_events g (scopeOf request) (w_now w) (queryOf request)
                (toLowerCase (queryOf request))
                (buildProjectNameToWorkspaceId workspaceEntries) workspaceEntries) as Hg.
  destruct (searchGlobalStorage _ _ _ _ _ _ _) as [r1 e1]. cbn [snd] in *.
  rewrite Hg. destruct (g_opens g); [|exact Hlegacy].
  cbn [app]. rewrite releasesHandles_open_close. exact Hlegacy.
Qed.

(** ** More facts about the string operations *)

Lemma toLowerCase_app a b : toLowerCase (a +:+ b) = toLowerCase a +:+ toLowerCase b.
Proof.
  induction a as [|c a IH]; [reflexivity|].
  rewrite append_cons. cbn [toLowerCase]. rewrite IH, append_cons. reflexivity.
Qed.

Lemma toLowerCase_take n s : toLowerCase (take_chars n s) = take_chars n (toLowerCase s).
Proof.
  revert s. induction n as [|n IH]; intros [|c s]; cbn [take_chars toLowerCase]; try reflexivity.
  rewrite IH. reflexivity.
Qed.

Lemma toLowerCase_drop n s : toLowerCase (drop_chars n s) = drop_chars n (toLowerCase s).
Proof.
  revert s. induction n as [|n IH]; intros [|c s]; cbn [drop_chars toLowerCase]; try reflexivity.
  apply IH.
Qed.

Lemma length_app (a b : string) :
  String.length (a +:+ b) = (String.length a + String.length b)%nat.
Proof.
  induction a as [|c a IH]; [reflexivity|].
  rewrite append_cons. cbn [String.length]. rewrite IH. reflexivity.
Qed.

Lemma length_take n s : String.length (take_chars n s) = Nat.min n (String.length s).
Proof.
  revert s. induction n as [|n IH]; intros [|c s]; cbn [take_chars String.length]; try reflexivity.
  rewrite IH. reflexivity.
Qed.

Lemma length_drop n s : String.length (drop_chars n s) = (String.length s - n)%nat.
Proof.
  revert s. induction n as [|n IH]; intros [|c s]; cbn [drop_chars String.length]; try reflexivity.
  apply IH.
Qed.

Lemma drop_chars_app a b k : drop_chars (String.length a + k) (a +:+ b) = drop_chars k b.
Proof.
  induction a as [|c a IH]; [reflexivity|].
  rewrite append_cons. cbn [String.length Nat.add drop_chars]. exact IH.
Qed.

Lemma drop_drop a b s : drop_chars a (drop_chars b s) = drop_chars (b + a) s.
Proof.
  revert s. induction b as [|b IH]; intros s; [reflexivity|].
  destruct s as [|c s]; cbn [Nat.add drop_chars].
  - destruct a; reflexivity.
  - apply IH.
Qed.

Lemma drop_take j n s : drop_chars j (take_chars n s) = take_chars (n - j) (drop_chars j s).
Proof.
  revert n s. induction j as [|j IH]; intros n s.
  - rewrite Nat.sub_0_r. reflexivity.
  - destruct n as [|n]; destruct s as [|c s]; cbn [take_chars drop_chars Nat.sub]; try reflexivity.
    + destruct (n - j)%nat; reflexivity.
    + apply IH.
Qed.

Lemma startsWith_nil s : startsWith s "" = true.
Proof. destruct s; reflexivity. Qed.

Lemma startsWith_of_nil p : startsWith "" p = true → p = EmptyString.
Proof. destruct p; [reflexivity | discriminate]. Qed.

Lemma startsWith_app s t p : startsWith s p = true → startsWith (s +:+ t) p = true.
Proof.
  revert s. induction p as [|a p IH]; intros s H; [apply startsWith_nil|].
  destruct s as [|b s]; [discriminate|].
  rewrite append_cons. cbn [startsWith] in *.
  destruct (Ascii.eqb a b); [apply IH; exact H | discriminate].
Qed.

Lemma startsWith_take n s p :
  startsWith s p = true → (String.length p ≤ n)%nat → startsWith (take_chars n s) p = true.
Proof.
  revert n s. induction p as [|a p IH]; intros n s H Hn; [apply startsWith_nil|].
  destruct s as [|b s]; [discriminate|].
  destruct n as [|n]; [cbn in Hn; lia|].
  cbn [take_chars startsWith] in *.
  destruct (Ascii.eqb a b); [apply IH; [exact H | cbn in Hn; lia] | discriminate].
Qed.

Lemma startsWith_drop_app j a b p :
  startsWith (drop_chars j a) p = true → startsWith (drop_chars j (a +:+ b)) p = true.
Proof.
  revert a. induction j as [|j IH]; intros a H.
  - apply startsWith_app. exact H.
  - destruct a as [|c a].
    + cbn [drop_chars] in H. apply startsWith_of_nil in H. subst p. apply startsWith_nil.
    + rewrite append_cons. cbn [drop_chars] in *. apply IH. exact H.
Qed.

Lemma includes_at k s sub : startsWith (drop_chars k s) sub = true → includes s sub = true.
Proof.
  revert s. induction k as [|k IH]; intros s H.
  - destruct s; [rewrite includes_nil | rewrite includes_cons]; cbn [drop_chars] in H;
      rewrite H; reflexivity.
  - destruct s as [|c s]; cbn [drop_chars] in H.
    + rewrite includes_nil, H. reflexivity.
    + rewrite includes_cons, (IH _ H). apply orb_true_r.
Qed.

Lemma slice_take_drop s (a b : nat) :
  (a ≤ b ≤ String.length s)%nat →
  slice s (Z.of_nat a) (Z.of_nat b) = take_chars (b - a) (drop_chars a s).
Proof.
  intros H. rewrite slice_substring by exact H. symmetry. apply take_drop_substring.
Qed.

(** Where the match sits in a snippet: after at most the marker and 50
    characters. *)
Lemma snippet_occurrence text query :
  includes (toLowerCase text) (toLowerCase query) = true →
  ∃ k, (k ≤ 53)%nat ∧
    startsWith (drop_chars k (toLowerCase (snippet text query (toLowerCase query))))
               (toLowerCase query) = true.
Proof.
  intros Hinc. rewrite includes_indexOf in Hinc. apply Z.leb_le in Hinc.
  pose proof (indexOf_fits _ _ Hinc) as Hfits.
  rewrite !toLowerCase_length in Hfits.
  destruct (Z_of_nat_complete _ Hinc) as [i Hi].
  destruct (indexOf_occurrence _ _ _ Hi) as [Hocc _].
  unfold snippet. rewrite Hi in *.
  set (len := String.length text) in *. set (n := String.length query) in *.
  replace (Z.max 0 (Z.of_nat i - 50)) with (Z.of_nat (i - 50)) by lia.
  replace (Z.min (Z.of_nat len) (Z.of_nat i + Z.of_nat n + 100))
    with (Z.of_nat (Nat.min len (i + n + 100))) by lia.
  rewrite slice_take_drop by (subst len; lia).
  set (start := (i - 50)%nat). set (stop := Nat.min len (i + n + 100)).
  assert (Hmid : startsWith (drop_chars (i - start)
                   (toLowerCase (take_chars (stop - start) (drop_chars start text))))
                   (toLowerCase query) = true).
  { rewrite toLowerCase_take, toLowerCase_drop, drop_take, drop_drop.
    replace (start + (i - start))%nat with i by (subst start; lia).
    apply startsWith_take; [exact Hocc|].
    rewrite toLowerCase_length. subst start stop. fold n. lia. }
  destruct (0 <? Z.of_nat start) eqn:Hs.
  - exists (3 + (i - start))%nat. split; [subst start; lia|].
    rewrite !toLowerCase_app.
    change (toLowerCase "...") with "...".
    change 3%nat with (String.length "...") at 1.
    rewrite drop_chars_app. apply startsWith_drop_app. exact Hmid.
  - exists (i - start)%nat. split; [subst start; lia|].
    rewrite !toLowerCase_app. change (toLowerCase "" +:+ ?x) with x.
    apply startsWith_drop_app. exact Hmid.
Qed.

Lemma length_slice_le s (a b : Z) :
  0 ≤ a → 0 ≤ b → Z.of_nat (String.length (slice s a b)) ≤ Z.max 0 (b - a).
Proof.
  intros Ha Hb. unfold slice.
  destruct (a <? 0) eqn:Ea; [apply Z.ltb_lt in Ea; lia|].
  destruct (b <? 0) eqn:Eb; [apply Z.ltb_lt in Eb; lia|].
  rewrite length_take. lia.
Qed.

(** ** Every pushed result *)

Lemma for_return_Some {A R : Type} (xs : list A) (body : A → outcome (option R)) r :
  for_return xs body = Ret (Some r) → ∃ x, In x xs ∧ body x = Ret (Some r).
Proof.
  induction xs as [|x xs IH]; cbn [for_return]; [discriminate|].
  destruct (body x) as [[y|]|] eqn:Hx; cbn [bind]; [| |discriminate].
  - intros [= <-]. exists x. split; [left; reflexivity | exact Hx].
  - intros H. destruct (IH H) as (z & Hz & Hb). exists z. split; [right; exact Hz | exact Hb].
Qed.

Lemma searchChatData_In wsId wsFolder now query queryLower chatResult r :
  In r (searchChatData wsId wsFolder now query queryLower chatResult) →
  ∃ tab, searchTab wsId wsFolder now query queryLower tab = Ret (Some r).
Proof.
  unfold searchChatData. destruct chatResult as [v|]; [|intros []].
  destruct (nonEmpty v); [|intros []].
  destruct (let* chatData := parse_string v in getp chatData "tabs") as [tabs|]; [|intros []].
  destruct (truthy tabs && isArray tabs); [|intros []].
  intros Hin. apply pushUntilThrow_In in Hin as (tab & _ & Htab). exists tab. exact Htab.
Qed.

Lemma searchComposerData_In entry now query queryLower composerResult r :
  In r (searchComposerData entry now query queryLower composerResult) →
  ∃ c, searchComposer entry now query queryLower c = Ret (Some r).
Proof.
  unfold searchComposerData. destruct composerResult as [v|]; [|intros []].
  destruct (nonEmpty v); [|intros []].
  destruct (let* composerData := parse_string v in getp composerData "allComposers")
    as [allComposers|]; [|intros []].
  destruct (truthy allComposers && isArray allComposers); [|intros []].
  intros Hin. apply pushUntilThrow_In in Hin as (c & _ & Hc). exists c. exact Hc.
Qed.

(** What holds of every result of the three push sites holds of every
    pushed result. *)
Lemma searchGlobalStorage_each (P : SearchResult → Prop) g ty now query queryLower
    projectNameToWorkspaceId workspaceEntries :
  (∀ projectLayoutsMap bubbleMap row r,
     searchComposerRow now query queryLower projectLayoutsMap projectNameToWorkspaceId
       workspaceEntries bubbleMap row = Ret (Some r) → P r) →
  (∀ tab r, searchTab "global" None now query queryLower tab = Ret (Some r) → P r) →
  ∀ r, In r (fst (searchGlobalStorage g ty now query queryLower projectNameToWorkspaceId
                    workspaceEntries)) → P r.
Proof.
  intros Hrow Htab r. unfold searchGlobalStorage. destruct (g_opens g); [|intros []].
  destruct (g_bubbleRows g) as [bubbleRows|]; [|intros []].
  destruct (g_contextRows g) as [contextRows|]; [|intros []].
  destruct (if wants ty "composer" then g_composerRows g else Ret []) as [composerRows|];
    [|intros []].
  assert (Hagent : In r (searchComposerRows now query queryLower
                           (buildProjectLayoutsMap contextRows) projectNameToWorkspaceId
                           workspaceEntries (buildBubbleMap bubbleRows) composerRows) → P r).
  { intros Hin. apply searchComposerRows_In in Hin as (row & _ & Hr). exact (Hrow _ _ _ _ Hr). }
  destruct (if wants ty "chat" then g_chatData g else Ret None) as [chatResult|]; cbn [fst].
  - rewrite in_app_iff. intros [Hin|Hin]; [exact (Hagent Hin)|].
    apply searchChatData_In in Hin as (tab & Ht). exact (Htab _ _ Ht).
  - exact Hagent.
Qed.

Lemma searchWorkspaceStore_each (P : SearchResult → Prop) w ty query queryLower entry :
  (∀ tab r, searchTab (name entry) (Some (folder entry)) (w_now w) query queryLower tab
            = Ret (Some r) → P r) →
  (∀ c r, searchComposer entry (w_now w) query queryLower c = Ret (Some r) → P r) →
  ∀ r, In r (fst (searchWorkspaceStore w ty query queryLower entry)) → P r.
Proof.
  intros Htab Hc r. unfold searchWorkspaceStore.
  destruct (w_store w (name entry)) as [db|]; [|intros []].
  destruct (s_opens db); [|intros []].
  destruct (if wants ty "chat" then s_chatData db else Ret None) as [chatResult|]; [|intros []].
  destruct (if wants ty "composer" then s_composerData db else Ret None) as [composerResult|];
    cbn [fst].
  - rewrite in_app_iff. intros [Hin|Hin].
    + apply searchChatData_In in Hin as (tab & Ht). exact (Htab _ _ Ht).
    + apply searchComposerData_In in Hin as (c & Hc'). exact (Hc _ _ Hc').
  - intros Hin. apply searchChatData_In in Hin as (tab & Ht). exact (Htab _ _ Ht).
Qed.

Lemma foundResults_each (P : SearchResult → Prop) w request workspaceEntries :
  (∀ projectLayoutsMap bubbleMap row r,
     searchComposerRow (w_now w) (queryOf request) (toLowerCase (queryOf request))
       projectLayoutsMap (buildProjectNameToWorkspaceId workspaceEntries)
       workspaceEntries bubbleMap row = Ret (Some r) → P r) →
  (∀ tab r,
     searchTab "global" None (w_now w) (queryOf request) (toLowerCase (queryOf request)) tab
     = Ret (Some r) → P r) →
  (∀ entry tab r,
     In entry workspaceEntries →
     searchTab (name entry) (Some (folder entry)) (w_now w) (queryOf request)
       (toLowerCase (queryOf request)) tab = Ret (Some r) → P r) →
  (∀ entry c r,
     In entry workspaceEntries →
     searchComposer entry (w_now w) (queryOf request) (toLowerCase (queryOf request)) c
     = Ret (Some r) → P r) →
  ∀ r, In r (foundResults w request workspaceEntries) → P r.
Proof.
  intros Hrow Hglobal Htab Hc r. rewrite foundResults_scan_order, in_app_iff.
  intros [Hin|Hin].
  - unfold unifiedResults in Hin. destruct (w_globalStore w) as [g|]; [|destruct Hin].
    revert r Hin. apply searchGlobalStorage_each; [exact Hrow | exact Hglobal].
  - apply in_flat_map in Hin as (entry & He & Hin). unfold legacyResults in Hin.
    revert r Hin. apply searchWorkspaceStore_each.
    + intros tab r. apply Htab. exact He.
    + intros c r. apply Hc. exact He.
Qed.

(** The results of a response were all pushed during the scan, for a
    query that is not empty. *)
Lemma GET_results_found w request rs r :
  results (fst (GET w request)) = Some rs → In r rs →
  nonEmpty (queryOf request) = true ∧
  ∃ workspaceEntries,
    scanWorkspaces w = Ret workspaceEntries ∧ In r (foundResults w request workspaceEntries).
Proof.
  unfold GET. cbv zeta. destruct (nonEmpty (queryOf request)); cbn [negb]; [|discriminate].
  destruct (scanWorkspaces w) as [workspaceEntries|].
  - destruct (collectResults _ _ _ _ _) as [found events] eqn:E. cbn [fst json results].
    intros [= <-] Hin. split; [reflexivity|]. exists workspaceEntries. split; [reflexivity|].
    apply Array_sort_In in Hin. rewrite removeDuplicates_keepFirst in Hin.
    apply keepFirst_first in Hin as (before & after & Hfound & _).
    unfold foundResults. rewrite E. cbn [fst]. rewrite Hfound. apply in_elt.
  - cbn [fst json results]. intros [= <-] [].
Qed.

(** ** The matching text contains the query *)

Lemma snippet_contains text query :
  includes (toLowerCase text) (toLowerCase query) = true →
  includes (toLowerCase (snippet text query (toLowerCase query))) (toLowerCase query) = true.
Proof.
  intros H. destruct (snippet_occurrence _ _ H) as (k & _ & Hk). exact (includes_at _ _ _ Hk).
Qed.

Lemma includes_opt_true v queryLower :
  includes_opt v queryLower = Ret true →
  ∃ s, v = VStr s ∧ includes (toLowerCase s) queryLower = true.
Proof.
  destruct v; cbn [includes_opt as_string bind]; try discriminate.
  intros [= H]. eexists. split; [reflexivity | exact H].
Qed.

Lemma matchMessages_contains messages query text :
  matchMessages messages query (toLowerCase query) = Ret (Some text) →
  includes (toLowerCase text) (toLowerCase query) = true.
Proof.
  unfold matchMessages. intros H. apply for_return_Some in H as (bubble & _ & H).
  destruct (getp bubble "text") as [t|]; cbn [bind] in H; [|discriminate].
  destruct (includes_opt t (toLowerCase query)) as [[|]|] eqn:Hhit; cbn [bind] in H;
    try discriminate.
  injection H as <-. apply includes_opt_true in Hhit as (s & -> & Hs).
  cbn [ToString]. apply snippet_contains. exact Hs.
Qed.

Lemma matchTab_contains tab query text :
  matchTab tab query (toLowerCase query) = Ret (Some text) →
  includes (toLowerCase text) (toLowerCase query) = true.
Proof.
  unfold matchTab.
  destruct (getp tab "chatTitle") as [chatTitle|]; cbn [bind]; [|discriminate].
  destruct (includes_opt chatTitle (toLowerCase query)) as [[|]|] eqn:Hhit; cbn [bind];
    try discriminate.
  - intros [= <-]. apply includes_opt_true in Hhit as (s & -> & Hs). exact Hs.
  - destruct (getp tab "bubbles") as [bubbles|]; cbn [bind]; [|discriminate].
    destruct (truthy bubbles && isArray bubbles); [|discriminate].
    destruct (iterate bubbles) as [items|]; cbn [bind]; [|discriminate].
    apply matchMessages_contains.
Qed.

Lemma matchComposer_contains c query text :
  matchComposer c query (toLowerCase query) = Ret (Some text) →
  includes (toLowerCase text) (toLowerCase query) = true.
Proof.
  unfold matchComposer.
  destruct (getp c "text") as [t|]; cbn [bind]; [|discriminate].
  destruct (includes_opt t (toLowerCase query)) as [[|]|] eqn:Hhit; cbn [bind];
    try discriminate.
  - intros [= <-]. apply includes_opt_true in Hhit as (s & -> & Hs). exact Hs.
  - destruct (getp c "conversation") as [conversation|]; cbn [bind]; [|discriminate].
    destruct (isArray conversation); [|discriminate].
    destruct (iterate conversation) as [items|]; cbn [bind]; [|discriminate].
    apply matchMessages_contains.
Qed.

Lemma matchComposerData_contains composerData title bubbleMap query text :
  matchComposerData composerData title bubbleMap query (toLowerCase query) = Ret (Some text) →
  includes (toLowerCase text) (toLowerCase query) = true.
Proof.
  unfold matchComposerData.
  destruct (includes (toLowerCase title) (toLowerCase query)) eqn:Ht.
  - intros [= <-]. exact Ht.
  - unfold matchHeaders.
    destruct (getp composerData "fullConversationHeadersOnly") as [headers|]; cbn [bind];
      [|discriminate].
    destruct (iterate (or_else headers (VArr []))) as [conversationHeaders|]; cbn [bind];
      [|discriminate].
    intros H. apply for_return_Some in H as (header & _ & H).
    destruct (getp header "bubbleId") as [bubbleId|]; cbn [bind] in H; [|discriminate].
    destruct (bubbleMap !! ToString bubbleId) as [bubble|]; [|discriminate].
    destruct (truthy bubble); [|discriminate].
    destruct (extractTextFromBubble bubble) as [t|]; cbn [bind] in H; [|discriminate].
    destruct (includes (toLowerCase t) (toLowerCase query)) eqn:Hhit; [|discriminate].
    injection H as <-. apply snippet_contains. exact Hhit.
Qed.

Lemma searchComposerRow_contains now query projectLayoutsMap projectNameToWorkspaceId
    workspaceEntries bubbleMap row r :
  searchComposerRow now query (toLowerCase query) projectLayoutsMap projectNameToWorkspaceId
    workspaceEntries bubbleMap row = Ret (Some r) →
  includes (toLowerCase (matchingText r)) (toLowerCase query) = true.
Proof.
  intros H. destruct (parse_string (val row)) as [composerData|] eqn:Hparse.
  - pose proof (searchComposerRow_match _ _ _ _ _ _ _ _ _ _ Hparse H) as Hm.
    destruct (composerTitle composerData (composerIdOf row)) as [title|]; cbn [bind] in Hm;
      [|discriminate].
    exact (matchComposerData_contains _ _ _ _ _ Hm).
  - unfold searchComposerRow in H. rewrite Hparse in H. discriminate.
Qed.


(** X3. A snippet is never longer than the query and 156 characters: 50
    before the match, 100 after it and the two markers. *)
Theorem snippet_length_bound (text query queryLower : string) :
  (String.length (snippet text query queryLower) ≤ String.length query + 156)%nat.
Proof.
  unfold snippet. pose proof (indexOf_lower_bound (toLowerCase text) queryLower) as Hi.
  set (i := indexOf (toLowerCase text) queryLower) in *.
  set (start := Z.max 0 (i - 50)).
  set (stop := Z.min (Z.of_nat (String.length text)) (i + Z.of_nat (String.length query) + 100)).
  assert (Hslice : Z.of_nat (String.length (slice text start stop)) ≤ Z.max 0 (stop - start))
    by (apply length_slice_le; subst start stop; lia).
  rewrite !length_app.
  assert (H1 : (String.length (if (0 <? start)%Z then "..." else "") ≤ 3)%nat)
    by (destruct (0 <? start)%Z; cbn; lia).
  assert (H2 : (String.length (if (stop <? Z.of_nat (String.length text))%Z
                               then "..." else "") ≤ 3)%nat)
    by (destruct (stop <? _)%Z; cbn; lia).
  subst start stop. lia.
Qed.

(** ** The scope of a search *)

Lemma searchGlobalStorage_scope g ty now query queryLower projectNameToWorkspaceId
    workspaceEntries r :
  In r (fst (searchGlobalStorage g ty now query queryLower projectNameToWorkspaceId
               workspaceEntries)) →
  wants ty (kind_name (type r)) = true.
Proof.
  unfold searchGlobalStorage. destruct (g_opens g); [|intros []].
  destruct (g_bubbleRows g) as [bubbleRows|]; [|intros []].
  destruct (g_contextRows g) as [contextRows|]; [|intros []].
  destruct (wants ty "composer") eqn:Hcomposer.
  - destruct (g_composerRows g) as [composerRows|]; [|intros []].
    destruct (wants ty "chat") eqn:Hchat.
    + destruct (g_chatData g) as [chatResult|]; cbn [fst]; [rewrite in_app_iff; intros [Hin|Hin]|intros Hin].
      * apply searchComposerRows_In in Hin as (row & _ & Hrow).
        apply searchComposerRow_fields in Hrow as [-> _]. exact Hcomposer.
      * apply searchChatData_fields in Hin as (_ & _ & ->). exact Hchat.
      * apply searchComposerRows_In in Hin as (row & _ & Hrow).
        apply searchComposerRow_fields in Hrow as [-> _]. exact Hcomposer.
    + cbn [fst searchChatData]. rewrite app_nil_r. intros Hin.
      apply searchComposerRows_In in Hin as (row & _ & Hrow).
      apply searchComposerRow_fields in Hrow as [-> _]. exact Hcomposer.
  - cbn [searchComposerRows flat_map app].
    destruct (wants ty "chat") eqn:Hchat.
    + destruct (g_chatData g) as [chatResult|]; cbn [fst]; [|intros []].
      intros Hin. apply searchChatData_fields in Hin as (_ & _ & ->). exact Hchat.
    + cbn [fst searchChatData]. intros [].
Qed.

Lemma searchWorkspaceStore_scope w ty query queryLower entry r :
  In r (fst (searchWorkspaceStore w ty query queryLower entry)) →
  wants ty (kind_name (type r)) = true.
Proof.
  unfold searchWorkspaceStore. destruct (w_store w (name entry)) as [db|]; [|intros []].
  destruct (s_opens db); [|intros []].
  assert (Hchat : ∀ chatResult,
            (if wants ty "chat" then s_chatData db else Ret None) = Ret chatResult →
            In r (searchChatData (name entry) (Some (folder entry)) (w_now w) query queryLower
                    chatResult) → wants ty (kind_name (type r)) = true).
  { intros chatResult E Hin. destruct (wants ty "chat") eqn:Hw.
    - apply searchChatData_fields in Hin as (_ & _ & ->). exact Hw.
    - injection E as <-. destruct Hin. }
  assert (Hcomposer : ∀ composerResult,
            (if wants ty "composer" then s_composerData db else Ret None) = Ret composerResult →
            In r (searchComposerData entry (w_now w) query queryLower composerResult) →
            wants ty (kind_name (type r)) = true).
  { intros composerResult E Hin. destruct (wants ty "composer") eqn:Hw.
    - apply searchComposerData_fields in Hin as (_ & _ & ->). exact Hw.
    - injection E as <-. destruct Hin. }
  destruct (if wants ty "chat" then s_chatData db else Ret None) as [chatResult|];
    [|intros []].
  destruct (if wants ty "composer" then s_composerData db else Ret None) as [composerResult|];
    cbn [fst].
  - rewrite in_app_iff. intros [Hin|Hin]; [exact (Hchat _ eq_refl Hin)|].
    exact (Hcomposer _ eq_refl Hin).
  - exact (Hchat _ eq_refl).
Qed.

Lemma foundResults_scope w request workspaceEntries r :
  In r (foundResults w request workspaceEntries) →
  wants (scopeOf request) (kind_name (type r)) = true.
Proof.
  rewrite foundResults_scan_order, in_app_iff. intros [Hin|Hin].
  - unfold unifiedResults in Hin. destruct (w_globalStore w) as [g|]; [|destruct Hin].
    exact (searchGlobalStorage_scope _ _ _ _ _ _ _ _ Hin).
  - apply in_flat_map in Hin as (entry & _ & Hin).
    exact (searchWorkspaceStore_scope _ _ _ _ _ _ Hin).
Qed.

(** X4. The [type] parameter filters the results: with [chat] every result
    is an ask conversation, with [composer] every result is an agent
    conversation, and with any value other than [all], [chat] and
    [composer] the response holds no result at all. *)
Theorem GET_scope_filter (w : World) (request : Request) (rs : list SearchResult) :
  results (fst (GET w request)) = Some rs →
  (scopeOf request = "chat" → ∀ r, In r rs → type r = chat) ∧
  (scopeOf request = "composer" → ∀ r, In r rs → type r = composer) ∧
  (scopeOf request ≠ "all" → scopeOf request ≠ "chat" → scopeOf request ≠ "composer" →
   rs = []).
Proof.
  intros Hrs.
  assert (Hscope : ∀ r, In r rs → wants (scopeOf request) (kind_name (type r)) = true).
  { intros r Hin. destruct (GET_results_found _ _ _ _ Hrs Hin) as (_ & es & _ & Hfound).
    exact (foundResults_scope _ _ _ _ Hfound). }
  split; [|split].
  - intros Hty r Hin. specialize (Hscope r Hin). rewrite Hty in Hscope.
    destruct (type r); [reflexivity | discriminate].
  - intros Hty r Hin. specialize (Hscope r Hin). rewrite Hty in Hscope.
    destruct (type r); [discriminate | reflexivity].
  - intros Hall Hchat Hcomposer. destruct rs as [|r rs']; [reflexivity|].
    specialize (Hscope r (or_introl eq_refl)). unfold wants in Hscope.
    apply orb_true_iff in Hscope as [H|H]; apply String.eqb_eq in H;
      [contradiction|]. destruct (type r); cbn [kind_name] in H; contradiction.
Qed.

(** ** Titles and timestamps of the results *)

Lemma nonEmpty_append_cons c (a b : string) : nonEmpty (String c a +:+ b) = true.
Proof. reflexivity. Qed.

Lemma truthy_or_else a b : truthy b = true → truthy (or_else a b) = true.
Proof. intros H. unfold or_else. destruct (truthy a) eqn:Ha; [exact Ha | exact H]. Qed.

Lemma includes_opt_Ret v queryLower hit :
  includes_opt v queryLower = Ret hit → truthy v = true → ∃ s, v = VStr s ∧ nonEmpty s = true.
Proof.
  destruct v; cbn [includes_opt as_string bind truthy]; try discriminate.
  intros _ H. eexists. split; [reflexivity | exact H].
Qed.

Lemma searchTab_shape wsId wsFolder now query queryLower tab r :
  searchTab wsId wsFolder now query queryLower tab = Ret (Some r) →
  nonEmpty (chatTitle r) = true ∧ ∃ lastSendTime, timestamp r = or_else lastSendTime (VStr now).
Proof.
  unfold searchTab.
  destruct (matchTab tab query queryLower) as [[text|]|] eqn:Hm; cbn [bind]; try discriminate.
  unfold matchTab in Hm.
  destruct (getp tab "tabId") as [tabId|]; cbn [bind]; [|discriminate].
  destruct (getp tab "chatTitle") as [title|]; cbn [bind] in *; [|discriminate].
  destruct (includes_opt title queryLower) as [hit|] eqn:Hhit; cbn [bind] in Hm;
    [|discriminate].
  destruct (truthy title) eqn:Htitle.
  - cbn [bind]. destruct (getp tab "lastSendTime") as [lastSendTime|]; cbn [bind];
      [|discriminate].
    intros [= <-]. cbn [chatTitle timestamp].
    destruct (includes_opt_Ret _ _ _ Hhit Htitle) as (s & -> & Hs).
    split; [exact Hs | eexists; reflexivity].
  - destruct (match tabId with VUndef | VNull => _ | _ => _ end) as [short|]; cbn [bind];
      [|discriminate].
    destruct (getp tab "lastSendTime") as [lastSendTime|]; cbn [bind]; [|discriminate].
    intros [= <-]. cbn [chatTitle timestamp].
    split; [apply nonEmpty_append_cons | eexists; reflexivity].
Qed.

Lemma searchComposer_shape entry now query queryLower c r :
  searchComposer entry now query queryLower c = Ret (Some r) →
  nonEmpty (chatTitle r) = true ∧
  ∃ lastUpdatedAt createdAt,
    timestamp r = or_else lastUpdatedAt (or_else createdAt (VStr now)).
Proof.
  unfold searchComposer.
  destruct (matchComposer c query queryLower) as [[text|]|] eqn:Hm; cbn [bind];
    try discriminate.
  unfold matchComposer in Hm.
  destruct (getp c "composerId") as [composerId|]; cbn [bind]; [|discriminate].
  destruct (getp c "text") as [title|]; cbn [bind] in *; [|discriminate].
  destruct (includes_opt title queryLower) as [hit|] eqn:Hhit; cbn [bind] in Hm;
    [|discriminate].
  destruct (truthy title) eqn:Htitle.
  - cbn [bind]. destruct (getp c "lastUpdatedAt") as [lastUpdatedAt|]; cbn [bind];
      [|discriminate].
    destruct (getp c "createdAt") as [createdAt|]; cbn [bind]; [|discriminate].
    intros [= <-]. cbn [chatTitle timestamp].
    destruct (includes_opt_Ret _ _ _ Hhit Htitle) as (s & -> & Hs).
    split; [exact Hs | eexists _, _; reflexivity].
  - destruct (as_string composerId) as [s|]; cbn [bind]; [|discriminate].
    destruct (getp c "lastUpdatedAt") as [lastUpdatedAt|]; cbn [bind]; [|discriminate].
    destruct (getp c "createdAt") as [createdAt|]; cbn [bind]; [|discriminate].
    intros [= <-]. cbn [chatTitle timestamp].
    split; [apply nonEmpty_append_cons | eexists _, _; reflexivity].
Qed.

Lemma composerTitle_nonEmpty composerData composerId title :
  composerTitle composerData composerId = Ret title → nonEmpty title = true.
Proof.
  unfold composerTitle.
  destruct (getp composerData "name") as [composerName|]; cbn [bind]; [|discriminate].
  destruct (truthy composerName) eqn:Hname; cbn [bind].
  - destruct composerName; cbn [as_string]; try discriminate.
    intros [= <-]. exact Hname.
  - destruct (as_string composerId) as [id|]; cbn [bind as_string]; [|discriminate].
    intros [= <-]. apply nonEmpty_append_cons.
Qed.

Lemma searchComposerRow_shape now query queryLower projectLayoutsMap projectNameToWorkspaceId
    workspaceEntries bubbleMap row r :
  searchComposerRow now query queryLower projectLayoutsMap projectNameToWorkspaceId
    workspaceEntries bubbleMap row = Ret (Some r) →
  nonEmpty (chatTitle r) = true ∧
  ∃ lastUpdatedAt createdAt,
    timestamp r = or_else lastUpdatedAt (or_else createdAt (VStr now)).
Proof.
  unfold searchComposerRow.
  destruct (parse_string (val row)) as [composerData|]; cbn [bind]; [|discriminate].
  destruct (determineProjectForConversation _ _ _ _ _ _) as [projectId|]; cbn [bind];
    [|discriminate].
  destruct (composerTitle _ _) as [title|] eqn:Htitle; cbn [bind]; [|discriminate].
  destruct (matchComposerData _ _ _ _ _) as [[text|]|]; cbn [bind]; try discriminate.
  destruct projectId as [id|]; [|discriminate].
  destruct (nonEmpty id); [|discriminate].
  destruct (getp composerData "lastUpdatedAt") as [lastUpdatedAt|]; cbn [bind]; [|discriminate].
  destruct (getp composerData "createdAt") as [createdAt|]; cbn [bind]; [|discriminate].
  intros [= <-]. cbn [chatTitle timestamp].
  split; [exact (composerTitle_nonEmpty _ _ _ Htitle) | eexists _, _; reflexivity].
Qed.

(** X5. Every result of a response has a title, a timestamp and a matching
    text: where the stored conversation has no title or no time, the
    handler fills in a synthesized title and the time of the request. *)
Theorem GET_results_complete (w : World) (request : Request)
    (rs : list SearchResult) (r : SearchResult) :
  w_now w ≠ EmptyString →
  results (fst (GET w request)) = Some rs → In r rs →
  chatTitle r ≠ EmptyString ∧ truthy (timestamp r) = true ∧ matchingText r ≠ EmptyString.
Proof.
  intros Hnow Hrs Hin.
  assert (Htext : includes (toLowerCase (matchingText r)) (toLowerCase (queryOf request)) = true).
  { destruct (GET_results_found _ _ _ _ Hrs Hin) as (_ & es & _ & Hfound).
    clear Hin. revert r Hfound. apply foundResults_each.
    - intros layouts bubbleMap row r. apply searchComposerRow_contains.
    - intros tab r H. apply searchTab_match in H. exact (matchTab_contains _ _ _ H).
    - intros entry tab r _ H. apply searchTab_match in H. exact (matchTab_contains _ _ _ H).
    - intros entry c r _ H. apply searchComposer_match in H.
      exact (matchComposer_contains _ _ _ H). }
  destruct (GET_results_found _ _ _ _ Hrs Hin) as (Hquery & es & _ & Hfound).
  assert (Hclock : truthy (VStr (w_now w)) = true) by (apply nonEmpty_true, Hnow).
  assert (H : nonEmpty (chatTitle r) = true ∧ truthy (timestamp r) = true).
  { clear Hin Htext. revert r Hfound. apply foundResults_each.
    - intros layouts bubbleMap row r H.
      apply searchComposerRow_shape in H as (Ht & a & b & ->).
      split; [exact Ht | apply truthy_or_else, truthy_or_else, Hclock].
    - intros tab r H. apply searchTab_shape in H as (Ht & a & ->).
      split; [exact Ht | apply truthy_or_else, Hclock].
    - intros entry tab r _ H. apply searchTab_shape in H as (Ht & a & ->).
      split; [exact Ht | apply truthy_or_else, Hclock].
    - intros entry c r _ H. apply searchComposer_shape in H as (Ht & a & b & ->).
      split; [exact Ht | apply truthy_or_else, truthy_or_else, Hclock]. }
  destruct H as [Ht Hs]. repeat split.
  - intros E. rewrite E in Ht. discriminate.
  - exact Hs.
  - intros E. rewrite E in Htext. cbn [toLowerCase] in Htext.
    rewrite includes_nil, orb_false_r in Htext. apply startsWith_of_nil in Htext.
    destruct (queryOf request); [discriminate Hquery | discriminate Htext].
Qed.

(** ** The text the palette shows *)

Lemma take_chars_app n (a b : string) : String.length a = n → take_chars n (a +:+ b) = a.
Proof.
  revert n. induction a as [|c a IH]; intros n <-; [reflexivity|].
  rewrite append_cons. cbn [String.length take_chars]. rewrite IH; reflexivity.
Qed.

Lemma truncateText_long text (n : nat) :
  (n < String.length text)%nat →
  truncateText text (Z.of_nat n) = take_chars n text +:+ "...".
Proof.
  intros H. unfold truncateText.
  destruct (Z.of_nat (String.length text) <=? Z.of_nat n) eqn:E; [apply Z.leb_le in E; lia|].
  change 0 with (Z.of_nat 0). rewrite slice_take_drop by lia.
  rewrite Nat.sub_0_r. reflexivity.
Qed.

(** X6. A text of at most [maxLength] characters is shown as it is; a longer
    one is cut to its first [maxLength] characters and three dots, so
    that what is shown has [maxLength + 3] characters, which for a text
    of [maxLength + 1] or [maxLength + 2] characters is more than the
    text had. *)
Theorem truncateText_length (text : string) (maxLength : Z) :
  0 ≤ maxLength →
  Z.of_nat (String.length (truncateText text maxLength)) =
    (if Z.of_nat (String.length text) <=? maxLength then Z.of_nat (String.length text)
     else maxLength + 3) ∧
  take_chars (Z.to_nat maxLength) (truncateText text maxLength) =
    take_chars (Z.to_nat maxLength) text.
Proof.
  intros Hmax. destruct (Z.of_nat (String.length text) <=? maxLength) eqn:E.
  - unfold truncateText. rewrite E. split; reflexivity.
  - apply Z.leb_gt in E. destruct (Z_of_nat_complete _ Hmax) as [n ->].
    rewrite Nat2Z.id, truncateText_long by lia. split.
    + rewrite length_app, length_take. cbn [String.length]. lia.
    + apply take_chars_app. rewrite length_take. lia.
Qed.


(** ** Resolving a file path *)

Lemma getProjectFromFilePath_find path workspaceEntries :
  getProjectFromFilePath (VStr path) workspaceEntries =
  Ret (name <$> find (insideFolder path) workspaceEntries).
Proof.
  unfold getProjectFromFilePath. cbn [as_string bind].
  induction workspaceEntries as [|e es IH]; cbn [for_return find]; [reflexivity|].
  unfold insideFolder at 1. destruct (nonEmpty (folder e)); cbn [andb bind].
  - destruct (startsWith _ _); cbn [bind]; [reflexivity | exact IH].
  - exact IH.
Qed.

Lemma find_first {A : Type} (p : A → bool) (l : list A) (x : A) :
  find p l = Some x ↔
  ∃ before after, l = before ++ x :: after ∧ p x = true ∧
                  Forall (fun y => p y = false) before.
Proof.
  split.
  - induction l as [|y l IH]; cbn [find]; [discriminate|].
    destruct (p y) eqn:Hy.
    + intros [= ->]. exists [], l. repeat split; [exact Hy | constructor].
    + intros H. destruct (IH H) as (before & after & -> & Hx & Hb).
      exists (y :: before), after. repeat split; [exact Hx | constructor; assumption].
  - intros (before & after & -> & Hx & Hb).
    induction Hb as [|y before Hy _ IH]; cbn [app find]; [rewrite Hx; reflexivity|].
    rewrite Hy. exact IH.
Qed.

Lemma find_none_Forall {A : Type} (p : A → bool) (l : list A) :
  find p l = None ↔ Forall (fun y => p y = false) l.
Proof.
  induction l as [|y l IH]; cbn [find]; [split; [constructor | reflexivity]|].
  destruct (p y) eqn:Hy; split.
  - discriminate.
  - intros H. apply Forall_cons in H as [H _]. congruence.
  - intros H. constructor; [exact Hy | apply IH, H].
  - intros H. apply Forall_cons in H as [_ H]. apply IH, H.
Qed.

(** X8. [getProjectFromFilePath] returns the name of the first workspace
    entry, in their order, that has a folder and whose folder path is a
    prefix of the file path, both without the file-scheme marker; it
    returns [null] exactly when no entry is such; and a path that is not
    a string makes it throw. *)
Theorem getProjectFromFilePath_first_match (path : string)
    (workspaceEntries : list WorkspaceEntry) :
  (∀ n, getProjectFromFilePath (VStr path) workspaceEntries = Ret (Some n) ↔
        ∃ before entry after,
          workspaceEntries = before ++ entry :: after ∧ name entry = n ∧
          insideFolder path entry = true ∧
          Forall (fun e => insideFolder path e = false) before) ∧
  (getProjectFromFilePath (VStr path) workspaceEntries = Ret None ↔
   Forall (fun e => insideFolder path e = false) workspaceEntries) ∧
  (∀ v, (∀ s, v ≠ VStr s) → getProjectFromFilePath v workspaceEntries = Throw).
Proof.
  rewrite getProjectFromFilePath_find. split; [|split].
  - intros n. split.
    + destruct (find _ _) as [e|] eqn:Hfind; cbn [fmap option_fmap option_map]; [|discriminate].
      intros [= <-]. apply find_first in Hfind as (before & after & -> & He & Hb).
      exists before, e, after. auto.
    + intros (before & e & after & -> & <- & He & Hb).
      assert (Hfind : find (insideFolder path) (before ++ e :: after) = Some e)
        by (apply find_first; exists before, after; auto).
      rewrite Hfind. reflexivity.
  - rewrite <- find_none_Forall. destruct (find _ _); cbn [fmap option_fmap option_map];
      split; congruence.
  - intros v Hv. destruct v; try reflexivity. exfalso. exact (Hv _ eq_refl).
Qed.

Lemma replace_unfold s pat rep :
  replace s pat rep =
  if startsWith s pat then rep +:+ drop_chars (String.length pat) s
  else match s with
       | EmptyString => EmptyString
       | String c s' => String c (replace s' pat rep)
       end.
Proof. destruct s; reflexivity. Qed.

Lemma startsWith_self_app p s : startsWith (p +:+ s) p = true.
Proof.
  induction p as [|a p IH]; [apply startsWith_nil|].
  rewrite append_cons. cbn [startsWith]. rewrite Ascii.eqb_refl. exact IH.
Qed.

Lemma replace_prefix pat s : replace (pat +:+ s) pat "" = s.
Proof.
  rewrite replace_unfold, startsWith_self_app.
  rewrite <- (Nat.add_0_r (String.length pat)), drop_chars_app. reflexivity.
Qed.

Lemma replace_absent s pat rep : includes s pat = false → replace s pat rep = s.
Proof.
  induction s as [|c s IH]; intros H; rewrite replace_unfold.
  - rewrite includes_nil in H. apply orb_false_iff in H as [-> _]. reflexivity.
  - rewrite includes_cons in H. apply orb_false_iff in H as [-> H]. rewrite IH by exact H.
    reflexivity.
Qed.

(** X9. A file below the folder of a workspace is resolved to a workspace,
    with or without the file-scheme marker in front of its path: given
    an entry with the folder [file://dir], the paths [dir ++ rest] and
    [file://dir ++ rest] give the same workspace, the first in the order
    of the entries whose folder holds the path. *)
Theorem getProjectFromFilePath_below_folder (workspaceEntries : list WorkspaceEntry)
    (entry : WorkspaceEntry) (dir rest : string) :
  In entry workspaceEntries →
  folder entry = "file://" +:+ dir →
  includes (dir +:+ rest) "file://" = false →
  (∃ e, In e workspaceEntries ∧ insideFolder (dir +:+ rest) e = true ∧
        getProjectFromFilePath (VStr (dir +:+ rest)) workspaceEntries = Ret (Some (name e))) ∧
  getProjectFromFilePath (VStr ("file://" +:+ (dir +:+ rest))) workspaceEntries =
  getProjectFromFilePath (VStr (dir +:+ rest)) workspaceEntries.
Proof.
  intros Hin Hfolder Hplain.
  assert (Hinside : insideFolder (dir +:+ rest) entry = true).
  { unfold insideFolder. rewrite Hfolder, replace_prefix, (replace_absent _ _ _ Hplain).
    rewrite startsWith_self_app. reflexivity. }
  split.
  - rewrite getProjectFromFilePath_find.
    destruct (find (insideFolder (dir +:+ rest)) workspaceEntries) as [e|] eqn:Hfind.
    + apply find_some in Hfind as [He Hp]. exists e. repeat split; assumption.
    + pose proof (find_none _ _ Hfind _ Hin) as H. congruence.
  - unfold getProjectFromFilePath. cbn [as_string bind].
    rewrite replace_prefix, (replace_absent _ _ _ Hplain). reflexivity.
Qed.

(** ** The folder index *)






(** ** The resolver names a workspace of the scan *)













(** ** The bubble map and the layouts map *)








(** ** The workspace scan and the failure of a request *)

Lemma checkedEntries_In raw workspaceEntries n s :
  checkedEntries raw = Ret workspaceEntries → In (n, VStr s) raw →
  In {| name := n; folder := s |} workspaceEntries.
Proof.
  revert workspaceEntries. induction raw as [|[n' f] raw IH]; intros es; [intros _ []|].
  cbn [checkedEntries].
  destruct (if truthy f then as_string f else Ret EmptyString) as [s'|] eqn:Hf; cbn [bind];
    [|discriminate].
  destruct (checkedEntries raw) as [es'|]; cbn [bind]; [|discriminate].
  intros [= <-] [[= -> ->]|Hin].
  - left. f_equal. cbn [truthy as_string] in Hf. destruct (nonEmpty s) eqn:Hs.
    + injection Hf as <-. reflexivity.
    + injection Hf as <-. symmetry. apply nonEmpty_false, Hs.
  - right. apply IH; [reflexivity | exact Hin].
Qed.


Lemma readWorkspaceEntries_In w dirents n f :
  In (n, f) (readWorkspaceEntries w dirents) ↔
  ∃ d content, In d dirents ∧ d_isDirectory d = true ∧ d_name d = n ∧
    w_workspaceJson w n = Some content ∧
    f = try_catch (let* text := content in
                   let* workspaceData := parse_string text in
                   let* folderURI := getp workspaceData "folder" in
                   Ret (or_else folderURI (VStr ""))) (VStr "").
Proof.
  unfold readWorkspaceEntries. rewrite in_flat_map. split.
  - intros (d & Hd & Hin). destruct (d_isDirectory d) eqn:Hdir; [|destruct Hin].
    destruct (w_workspaceJson w (d_name d)) as [content|] eqn:Hc; [|destruct Hin].
    destruct Hin as [[= <- <-]|[]]. exists d, content. auto.
  - intros (d & content & Hd & Hdir & <- & Hc & ->). exists d. split; [exact Hd|].
    rewrite Hdir, Hc. left. reflexivity.
Qed.

Lemma parse_string_JSON s : parse_string s = match JSON_parse s with Some d => Ret d | None => Throw end.
Proof. reflexivity. Qed.

(** X15. A directory with a descriptor file always gives a workspace entry:
    with the folder of the descriptor when that is a string, and with
    the empty folder when the descriptor cannot be read or is not JSON;
    such a workspace is still scanned. *)
Theorem scanWorkspaces_keeps_workspace (w : World) (dirents : list Dirent)
    (workspaceEntries : list WorkspaceEntry) (d : Dirent) :
  w_readdir w = Ret dirents →
  scanWorkspaces w = Ret workspaceEntries →
  In d dirents → d_isDirectory d = true →
  (w_workspaceJson w (d_name d) = Some Throw ∨
   (∃ text, w_workspaceJson w (d_name d) = Some (Ret text) ∧ JSON_parse text = None) →
   In {| name := d_name d; folder := EmptyString |} workspaceEntries) ∧
  (∀ text workspaceData folderURI,
     w_workspaceJson w (d_name d) = Some (Ret text) →
     JSON_parse text = Some workspaceData →
     getp workspaceData "folder" = Ret (VStr folderURI) →
     In {| name := d_name d; folder := folderURI |} workspaceEntries).
Proof.
  intros Hdir Hscan Hd Hisdir. unfold scanWorkspaces in Hscan. rewrite Hdir in Hscan.
  cbn [bind] in Hscan. split.
  - intros Hbroken. apply (checkedEntries_In _ _ _ _ Hscan). apply readWorkspaceEntries_In.
    destruct Hbroken as [Hc|(text & Hc & Hparse)].
    + exists d, Throw. auto.
    + exists d, (Ret text). repeat split; try assumption.
      cbn [bind]. rewrite parse_string_JSON, Hparse. reflexivity.
  - intros text workspaceData folderURI Hc Hparse Hfolder.
    apply (checkedEntries_In _ _ _ _ Hscan). apply readWorkspaceEntries_In.
    exists d, (Ret text). repeat split; try assumption.
    cbn [bind]. rewrite parse_string_JSON, Hparse. cbn [bind]. rewrite Hfolder. cbn [bind try_catch].
    unfold or_else. cbn [truthy]. destruct folderURI; reflexivity.
Qed.



(** ** Deduplication and ranking, once more *)

Lemma keepFirst_id seen l :
  (∀ s r, In s seen → In r l → strict_equals (chatId s) (chatId r) = false) →
  pairwiseDistinct l → keepFirst seen l = l.
Proof.
  revert seen. induction l as [|r rest IH]; intros seen Hcross Hd; [reflexivity|].
  cbn [keepFirst]. destruct Hd as [Hr Hd].
  assert (Hseen : existsb (fun s => strict_equals (chatId s) (chatId r)) seen = false).
  { destruct (existsb _ seen) eqn:E; [|reflexivity].
    apply existsb_exists in E as (s & Hs & Heq).
    rewrite (Hcross s r Hs (or_introl eq_refl)) in Heq. discriminate. }
  rewrite Hseen. f_equal. apply IH; [|exact Hd].
  intros s r' Hs Hr'. apply in_app_iff in Hs as [Hs|[<-|[]]].
  - apply Hcross; [exact Hs | right; exact Hr'].
  - rewrite Forall_forall in Hr. apply Hr, list_elem_of_In, Hr'.
Qed.

(** X17. Deduplication leaves a list without repeated [chatId] as it is,
    order included; so running it twice changes nothing more, and it
    never lengthens the list. *)
Theorem removeDuplicates_idempotent (results : list SearchResult) :
  (pairwiseDistinct results → removeDuplicates results = results) ∧
  removeDuplicates (removeDuplicates results) = removeDuplicates results ∧
  (length (removeDuplicates results) ≤ length results)%nat.
Proof.
  assert (Hid : ∀ l, pairwiseDistinct l → removeDuplicates l = l).
  { intros l Hl. rewrite removeDuplicates_keepFirst. apply keepFirst_id; [intros s r []|exact Hl]. }
  split; [apply Hid|]. split.
  - apply Hid. rewrite removeDuplicates_keepFirst. apply keepFirst_distinct.
  - rewrite removeDuplicates_keepFirst. generalize (@nil SearchResult).
    induction results as [|r rest IH]; intros seen; cbn [keepFirst length]; [lia|].
    destruct (existsb _ seen); cbn [length]; specialize (IH (seen ++ [r])); lia.
Qed.

Lemma sort_insert_Permutation {A : Type} (cmp : A → A → option Z) x l :
  sort_insert cmp x l ≡ₚ x :: l.
Proof.
  induction l as [|y l IH]; cbn [sort_insert]; [reflexivity|].
  destruct (default 0 (cmp x y) <=? 0); [reflexivity|].
  rewrite IH. apply Permutation_swap.
Qed.

Lemma Array_sort_Permutation {A : Type} (cmp : A → A → option Z) l : Array_sort cmp l ≡ₚ l.
Proof.
  induction l as [|x l IH]; cbn [Array_sort]; [reflexivity|].
  rewrite sort_insert_Permutation, IH. reflexivity.
Qed.

Lemma Array_sort_ties {A : Type} (cmp : A → A → option Z) l :
  (∀ a b, In a l → In b l → default 0 (cmp a b) ≤ 0) → Array_sort cmp l = l.
Proof.
  induction l as [|x l IH]; intros H; cbn [Array_sort]; [reflexivity|].
  rewrite IH by (intros a b Ha Hb; apply H; right; assumption).
  destruct l as [|y l]; cbn [sort_insert]; [reflexivity|].
  destruct (default 0 (cmp x y) <=? 0) eqn:E; [reflexivity|].
  apply Z.leb_gt in E. specialize (H x y (or_introl eq_refl) (or_intror (or_introl eq_refl))). lia.
Qed.

(** X18. Ranking only reorders: a successful response holds exactly the
    deduplicated results, each as often as before. Results whose
    timestamps are all the same time, or none of which is a time, stay
    in the order of the scan. *)
Theorem GET_ranking_reorders (w : World) (request : Request) (rs : list SearchResult) :
  fst (GET w request) = json None (Some rs) 200 →
  ∃ workspaceEntries,
    scanWorkspaces w = Ret workspaceEntries ∧
    let unique := removeDuplicates (foundResults w request workspaceEntries) in
    rs ≡ₚ unique ∧ length rs = length unique ∧
    ((∀ a b, In a unique → In b unique →
        timeOf (timestamp a) = timeOf (timestamp b) ∨ timeOf (timestamp a) = None) →
     rs = unique).
Proof.
  intros Hok. destruct (GET_ok _ _ _ Hok) as (es & Hscan & ->). exists es.
  split; [exact Hscan|]. cbv zeta. split; [apply Array_sort_Permutation|]. split.
  - apply Permutation_length, Array_sort_Permutation.
  - intros Hties. apply Array_sort_ties. intros a b Ha Hb. unfold compareResults.
    destruct (Hties a b Ha Hb) as [E|E]; rewrite E.
    + destruct (timeOf (timestamp b)); cbn; lia.
    + cbn. lia.
Qed.

(** ** A tab or a node that is not an object *)

Lemma pushUntilThrow_app {A : Type} (before after : list A) x
    (body : A → outcome (option SearchResult)) :
  body x = Throw →
  pushUntilThrow (before ++ x :: after) body = pushUntilThrow before body.
Proof.
  intros Hx. induction before as [|y before IH]; cbn [app pushUntilThrow].
  - rewrite Hx. reflexivity.
  - destruct (body y) as [[r|]|]; [rewrite IH; reflexivity | exact IH | reflexivity].
Qed.

Lemma searchTab_Throw wsId wsFolder now query queryLower tab :
  tab = VNull ∨ (∃ n, getp tab "chatTitle" = Ret (VNum n)) →
  searchTab wsId wsFolder now query queryLower tab = Throw.
Proof.
  intros [->|[n H]]; [reflexivity|]. unfold searchTab, matchTab. rewrite H. reflexivity.
Qed.

(** X19. A tab on which the search throws ends the scan of its document: the
    results of the tabs before it are kept, and the tabs after it are
    never searched. A tab that is [null], or whose title is a number, is
    such a tab. *)
Theorem searchChatData_stops_at_throw (wsId : string) (wsFolder : option string)
    (now query queryLower : string) (v : string) (chatData : value)
    (before after : list value) (tab : value) :
  v ≠ EmptyString →
  JSON_parse v = Some chatData →
  getp chatData "tabs" = Ret (VArr (before ++ tab :: after)) →
  (searchTab wsId wsFolder now query queryLower tab = Throw →
   searchChatData wsId wsFolder now query queryLower (Some v) =
   pushUntilThrow before (searchTab wsId wsFolder now query queryLower)) ∧
  (tab = VNull ∨ (∃ n, getp tab "chatTitle" = Ret (VNum n)) →
   searchTab wsId wsFolder now query queryLower tab = Throw).
Proof.
  intros Hv Hparse Htabs. split; [|apply searchTab_Throw].
  intros Hthrow. unfold searchChatData. rewrite (nonEmpty_true _ Hv).
  rewrite parse_string_JSON, Hparse. cbn [bind]. rewrite Htabs.
  cbn [truthy isArray andb items_of]. apply pushUntilThrow_app. exact Hthrow.
Qed.

Lemma for_acc_Throw {A B : Type} (xs : list A) (acc : B) (body : B → A → outcome B) x :
  In x xs → (∀ a, body a x = Throw) → for_acc xs acc body = Throw.
Proof.
  intros Hin Hx. revert acc. induction xs as [|y xs IH]; intros acc; [destruct Hin|].
  cbn [for_acc]. destruct Hin as [->|Hin].
  - rewrite Hx. reflexivity.
  - destruct (body acc y); cbn [bind]; [apply IH, Hin | reflexivity].
Qed.

Lemma extractTextFromRichText_null items :
  In VNull items → extractTextFromRichText (VArr items) = Throw.
Proof.
  intros Hin. unfold extractTextFromRichText. cbn [extractTextFromRichText_rec iterate bind].
  apply (for_acc_Throw _ _ _ VNull Hin). reflexivity.
Qed.

(** X20. One [null] among the children of the root discards the structured
    text altogether: [extractTextFromRichText] throws on it, and a
    bubble without plain text then has the empty text, whatever the
    other nodes hold. *)
Theorem extractTextFromBubble_null_node (bubble t richText doc root : value)
    (items : list value) :
  getp bubble "text" = Ret t → truthy t = false →
  getp bubble "richText" = Ret richText →
  JSON_parse (ToString richText) = Some doc →
  getp doc "root" = Ret root →
  getp root "children" = Ret (VArr items) →
  In VNull items →
  extractTextFromRichText (VArr items) = Throw ∧
  extractTextFromBubble bubble = Ret EmptyString.
Proof.
  intros Ht Hblank Hrich Hparse Hroot Hkids Hnull.
  pose proof (extractTextFromRichText_null _ Hnull) as Hthrow. split; [exact Hthrow|].
  rewrite (extractTextFromBubble_unfold _ _ _ Ht Hrich). rewrite Hblank. cbn [bind nonEmpty negb andb].
  destruct (truthy richText); [|reflexivity].
  unfold parseRichText, parse. rewrite Hparse. cbn [bind]. rewrite Hroot. cbn [bind].
  assert (Htruthy : truthy root = true).
  { destruct root; try reflexivity; cbn in Hkids; discriminate. }
  rewrite Htruthy, Hkids. cbn [bind truthy andb]. rewrite Hthrow. reflexivity.
Qed.

(** ** The command palette *)

Lemma resultAt_Some results i :
  0 ≤ i < Z.of_nat (length results) →
  ∃ r, resultAt results i = Some r ∧ In r results.
Proof.
  intros Hi. unfold resultAt. destruct (i <? 0) eqn:E; [apply Z.ltb_lt in E; lia|].
  destruct (lookup_lt_is_Some_2 results (Z.to_nat i)) as [r Hr]; [lia|].
  exists r. split; [exact Hr|]. apply list_elem_of_In. exact (list_elem_of_lookup_2 _ _ _ Hr).
Qed.

Lemma handleKeyDown_in_bounds results i e :
  0 ≤ i < Z.of_nat (length results) →
  0 ≤ fst (handleKeyDown results i e) < Z.of_nat (length results).
Proof.
  intros Hi. destruct e; cbn [handleKeyDown fst]; try lia.
  destruct (resultAt results i); cbn [fst]; lia.
Qed.

Lemma selectedAfter_bounds results i keys :
  0 ≤ i < Z.of_nat (length results) →
  0 ≤ selectedAfter results i keys < Z.of_nat (length results).
Proof.
  unfold selectedAfter. revert i. induction keys as [|e keys IH]; intros i Hi; [exact Hi|].
  cbn [fold_left]. apply IH, handleKeyDown_in_bounds, Hi.
Qed.

(** X21. While there are results, the arrow keys keep the highlighted index
    inside the list, and Enter navigates to the page of the highlighted
    result. Without results nothing is navigated to, and the down arrow
    moves the index from 0 to -1. *)
Theorem handleKeyDown_selection (results : list SearchResult) (selectedIndex : Z)
    (keys : list pressed) :
  (0 ≤ selectedIndex < Z.of_nat (length results) →
   let i := selectedAfter results selectedIndex keys in
   0 ≤ i < Z.of_nat (length results) ∧
   ∃ r, In r results ∧ resultAt results i = Some r ∧
        handleKeyDown results i Enter = (i, Some (navigateToResult r))) ∧
  (∀ e, snd (handleKeyDown [] selectedIndex e) = None) ∧
  fst (handleKeyDown [] 0 ArrowDown) = -1.
Proof.
  split; [|split].
  - intros Hi. cbv zeta. pose proof (selectedAfter_bounds _ _ keys Hi) as Hb.
    split; [exact Hb|]. destruct (resultAt_Some _ _ Hb) as (r & Hr & Hin).
    exists r. split; [exact Hin|]. split; [exact Hr|].
    cbn [handleKeyDown]. rewrite Hr. reflexivity.
  - intros e. destruct e; cbn [handleKeyDown snd]; try reflexivity.
    unfold resultAt. destruct (selectedIndex <? 0); reflexivity.
  - reflexivity.
Qed.

Lemma trim_nonEmpty query : nonEmpty (trim query) = true → nonEmpty query = true.
Proof. destruct query; [discriminate | reflexivity]. Qed.

(** X22. The palette sends no request for a query that is blank after
    trimming. A request that it sends carries the query as typed and the
    chosen filter, the handler never answers it with status 400, and
    what the palette then shows respects the filter. *)
Theorem searchEffect_request_accepted (w : World) (query : string) (filter : scope) :
  (searchEffect query filter = None ↔ trim query = EmptyString) ∧
  (∀ request, searchEffect query filter = Some request →
     queryOf request = query ∧ scopeOf request = scope_name filter ∧
     status (fst (GET w request)) ≠ 400 ∧
     (filter = AskLogs → ∀ r, In r (shownResults (fst (GET w request))) → type r = chat) ∧
     (filter = AgentLogs →
      ∀ r, In r (shownResults (fst (GET w request))) → type r = composer)).
Proof.
  unfold searchEffect. split.
  - destruct (trim query); cbn [nonEmpty negb]; split; congruence.
  - intros request. destruct (nonEmpty (trim query)) eqn:Hq; cbn [negb]; [|discriminate].
    intros [= <-]. apply trim_nonEmpty in Hq.
    assert (Hscope : scopeOf {| q := Some query; type_param := Some (scope_name filter) |}
                     = scope_name filter) by (destruct filter; reflexivity).
    split; [reflexivity|]. split; [exact Hscope|]. split.
    + unfold GET. cbv zeta. cbn [queryOf q default from_option id]. rewrite Hq. cbn [negb].
      destruct (scanWorkspaces w); [destruct (collectResults _ _ _ _ _)|];
        cbn [fst json status]; discriminate.
    + assert (Hshown : ∀ r, In r (shownResults
                (fst (GET w {| q := Some query; type_param := Some (scope_name filter) |}))) →
              wants (scope_name filter) (kind_name (type r)) = true).
      { intros r. unfold shownResults. destruct (results _) as [rs|] eqn:Hrs; [|intros []].
        cbn [default from_option id]. intros Hin.
        destruct (GET_results_found _ _ _ _ Hrs Hin) as (_ & es & _ & Hfound).
        rewrite <- Hscope. exact (foundResults_scope _ _ _ _ Hfound). }
      split; intros -> r Hin; specialize (Hshown r Hin); destruct (type r);
        first [reflexivity | discriminate].
Qed.

Lemma split_last_Some sep s : ∃ x, last (split sep s) = Some x.
Proof.
  induction s as [|c s [x IH]]; cbn [split]; [eexists; reflexivity|].
  destruct (Ascii.eqb c sep).
  - exists x. rewrite last_cons, IH. reflexivity.
  - destruct (split sep s) as [|w ws]; [discriminate|].
    rewrite last_cons in IH. rewrite last_cons.
    destruct (last ws); [exists x; exact IH | eexists; reflexivity].
Qed.

Lemma split_after_separator sep p s :
  ∃ w ws, split sep (p +:+ String sep s) = w :: ws ∧ last ws = last (split sep s).
Proof.
  induction p as [|c p (w & ws & Hsplit & Hlast)].
  - change ("" +:+ String sep s) with (String sep s). cbn [split].
    rewrite Ascii.eqb_refl. eexists _, _. split; reflexivity.
  - rewrite append_cons. cbn [split]. rewrite Hsplit. destruct (Ascii.eqb c sep).
    + eexists _, _. split; [reflexivity|]. rewrite last_cons, Hlast.
      destruct (split_last_Some sep s) as [x ->]. reflexivity.
    + eexists _, _. split; [reflexivity | exact Hlast].
Qed.

Lemma last_split_after_separator sep p s :
  last (split sep (p +:+ String sep s)) = last (split sep s).
Proof.
  destruct (split_after_separator sep p s) as (w & ws & -> & Hlast).
  rewrite last_cons, Hlast. destruct (split_last_Some sep s) as [x ->]. reflexivity.
Qed.

(** X23. Beside a result of a workspace whose folder is [file://dir], the
    palette shows the last segment of [dir]; unless that segment is
    empty, it is the key under which the handler's folder index holds
    the workspace. *)
Theorem workspaceLabel_last_segment (r : SearchResult) (dir : string) :
  workspaceId r ≠ "global" →
  workspaceFolder r = Some ("file://" +:+ dir) →
  workspaceLabel r = FolderLabel (finalSegment dir) ∧
  (finalSegment dir ≠ EmptyString →
   ∀ entry, folder entry = "file://" +:+ dir → indexKey entry = Some (finalSegment dir)).
Proof.
  intros Hid Hfolder. split.
  - unfold workspaceLabel. apply String.eqb_neq in Hid. rewrite Hid, Hfolder.
    cbn [nonEmpty]. rewrite replace_prefix. reflexivity.
  - intros Hseg entry He. unfold indexKey, folderNameOf, pop. rewrite He.
    change (nonEmpty ("file://" +:+ dir)) with true. cbv iota zeta.
    change ("file://" +:+ dir) with ("file:/" +:+ String "/" dir).
    rewrite last_split_after_separator.
    change (default EmptyString (last (split "/" dir))) with (finalSegment dir).
    rewrite (nonEmpty_true _ Hseg). cbv iota. rewrite (nonEmpty_true _ Hseg). reflexivity.
Qed.

(** ** The case of the query *)

Lemma matchTab_query_case tab query query' queryLower :
  toLowerCase query' = toLowerCase query →
  matchTab tab query' queryLower = matchTab tab query queryLower.
Proof.
  intros Hq. unfold matchTab.
  destruct (getp tab "chatTitle") as [chatTitle|]; cbn [bind]; [|reflexivity].
  destruct (includes_opt chatTitle queryLower) as [[|]|]; cbn [bind]; try reflexivity.
  destruct (getp tab "bubbles") as [bubbles|]; cbn [bind]; [|reflexivity].
  destruct (truthy bubbles && isArray bubbles); [|reflexivity].
  destruct (iterate bubbles) as [items|]; cbn [bind]; [|reflexivity].
  apply matchMessages_case, Hq.
Qed.

Lemma matchComposer_query_case c query query' queryLower :
  toLowerCase query' = toLowerCase query →
  matchComposer c query' queryLower = matchComposer c query queryLower.
Proof.
  intros Hq. unfold matchComposer.
  destruct (getp c "text") as [t|]; cbn [bind]; [|reflexivity].
  destruct (includes_opt t queryLower) as [[|]|]; cbn [bind]; try reflexivity.
  destruct (getp c "conversation") as [conversation|]; cbn [bind]; [|reflexivity].
  destruct (isArray conversation); [|reflexivity].
  destruct (iterate conversation) as [items|]; cbn [bind]; [|reflexivity].
  apply matchMessages_case, Hq.
Qed.

Lemma matchComposerData_query_case composerData title bubbleMap query query' queryLower :
  toLowerCase query' = toLowerCase query →
  matchComposerData composerData title bubbleMap query' queryLower =
  matchComposerData composerData title bubbleMap query queryLower.
Proof.
  intros Hq. unfold matchComposerData, matchHeaders.
  destruct (includes (toLowerCase title) queryLower); [reflexivity|].
  destruct (getp composerData "fullConversationHeadersOnly") as [headers|]; cbn [bind];
    [|reflexivity].
  destruct (iterate (or_else headers (VArr []))) as [conversationHeaders|]; cbn [bind];
    [|reflexivity].
  apply for_return_ext. intros header.
  destruct (getp header "bubbleId") as [bubbleId|]; cbn [bind]; [|reflexivity].
  destruct (bubbleMap !! ToString bubbleId) as [bubble|]; [|reflexivity].
  destruct (truthy bubble); [|reflexivity].
  destruct (extractTextFromBubble bubble) as [text|]; cbn [bind]; [|reflexivity].
  rewrite (snippet_query_case _ _ _ _ Hq). reflexivity.
Qed.

Lemma searchTab_query_case wsId wsFolder now query query' queryLower tab :
  toLowerCase query' = toLowerCase query →
  searchTab wsId wsFolder now query' queryLower tab =
  searchTab wsId wsFolder now query queryLower tab.
Proof. intros Hq. unfold searchTab. rewrite (matchTab_query_case _ _ _ _ Hq). reflexivity. Qed.

Lemma searchComposer_query_case entry now query query' queryLower c :
  toLowerCase query' = toLowerCase query →
  searchComposer entry now query' queryLower c = searchComposer entry now query queryLower c.
Proof.
  intros Hq. unfold searchComposer. rewrite (matchComposer_query_case _ _ _ _ Hq). reflexivity.
Qed.

Lemma searchComposerRow_query_case now query query' queryLower projectLayoutsMap
    projectNameToWorkspaceId workspaceEntries bubbleMap row :
  toLowerCase query' = toLowerCase query →
  searchComposerRow now query' queryLower projectLayoutsMap projectNameToWorkspaceId
    workspaceEntries bubbleMap row =
  searchComposerRow now query queryLower projectLayoutsMap projectNameToWorkspaceId
    workspaceEntries bubbleMap row.
Proof.
  intros Hq. unfold searchComposerRow.
  destruct (parse_string (val row)) as [composerData|]; cbn [bind]; [|reflexivity].
  destruct (determineProjectForConversation _ _ _ _ _ _) as [projectId|]; cbn [bind];
    [|reflexivity].
  destruct (composerTitle _ _) as [title|]; cbn [bind]; [|reflexivity].
  rewrite (matchComposerData_query_case _ _ _ _ _ _ Hq). reflexivity.
Qed.

Lemma pushUntilThrow_ext {A : Type} (xs : list A) (f g : A → outcome (option SearchResult)) :
  (∀ x, f x = g x) → pushUntilThrow xs f = pushUntilThrow xs g.
Proof.
  intros H. induction xs as [|x xs IH]; cbn [pushUntilThrow]; [reflexivity|].
  rewrite H, IH. reflexivity.
Qed.

Lemma searchChatData_query_case wsId wsFolder now query query' queryLower chatResult :
  toLowerCase query' = toLowerCase query →
  searchChatData wsId wsFolder now query' queryLower chatResult =
  searchChatData wsId wsFolder now query queryLower chatResult.
Proof.
  intros Hq. unfold searchChatData. destruct chatResult as [v|]; [|reflexivity].
  destruct (nonEmpty v); [|reflexivity].
  destruct (let* chatData := parse_string v in getp chatData "tabs") as [tabs|]; [|reflexivity].
  destruct (truthy tabs && isArray tabs); [|reflexivity].
  apply pushUntilThrow_ext. intros tab. apply searchTab_query_case, Hq.
Qed.

Lemma searchComposerData_query_case entry now query query' queryLower composerResult :
  toLowerCase query' = toLowerCase query →
  searchComposerData entry now query' queryLower composerResult =
  searchComposerData entry now query queryLower composerResult.
Proof.
  intros Hq. unfold searchComposerData. destruct composerResult as [v|]; [|reflexivity].
  destruct (nonEmpty v); [|reflexivity].
  destruct (let* composerData := parse_string v in getp composerData "allComposers")
    as [allComposers|]; [|reflexivity].
  destruct (truthy allComposers && isArray allComposers); [|reflexivity].
  apply pushUntilThrow_ext. intros c. apply searchComposer_query_case, Hq.
Qed.

Lemma searchGlobalStorage_query_case g ty now query query' queryLower
    projectNameToWorkspaceId workspaceEntries :
  toLowerCase query' = toLowerCase query →
  searchGlobalStorage g ty now query' queryLower projectNameToWorkspaceId workspaceEntries =
  searchGlobalStorage g ty now query queryLower projectNameToWorkspaceId workspaceEntries.
Proof.
  intros Hq. unfold searchGlobalStorage, searchComposerRows.
  destruct (g_opens g); [|reflexivity].
  destruct (g_bubbleRows g) as [bubbleRows|]; [|reflexivity].
  destruct (g_contextRows g) as [contextRows|]; [|reflexivity].
  destruct (if wants ty "composer" then g_composerRows g else Ret []) as [composerRows|];
    [|reflexivity].
  rewrite (flat_map_ext _ _ (fun row =>
             f_equal (fun o => match o with Ret (Some r) => [r] | _ => [] end)
                     (searchComposerRow_query_case now query query' queryLower _ _ _ _ row Hq))).
  destruct (if wants ty "chat" then g_chatData g else Ret None) as [chatResult|];
    [|reflexivity].
  rewrite (searchChatData_query_case _ _ _ _ _ _ _ Hq). reflexivity.
Qed.

Lemma searchWorkspaceStore_query_case w ty query query' queryLower entry :
  toLowerCase query' = toLowerCase query →
  searchWorkspaceStore w ty query' queryLower entry =
  searchWorkspaceStore w ty query queryLower entry.
Proof.
  intros Hq. unfold searchWorkspaceStore.
  destruct (w_store w (name entry)) as [db|]; [|reflexivity].
  destruct (s_opens db); [|reflexivity].
  destruct (if wants ty "chat" then s_chatData db else Ret None) as [chatResult|];
    [|reflexivity].
  rewrite (searchChatData_query_case _ _ _ _ _ _ _ Hq).
  destruct (if wants ty "composer" then s_composerData db else Ret None) as [composerResult|];
    [|reflexivity].
  rewrite (searchComposerData_query_case _ _ _ _ _ _ Hq). reflexivity.
Qed.

Lemma searchWorkspaceStores_query_case w ty query query' queryLower workspaceEntries :
  toLowerCase query' = toLowerCase query →
  searchWorkspaceStores w ty query' queryLower workspaceEntries =
  searchWorkspaceStores w ty query queryLower workspaceEntries.
Proof.
  intros Hq. induction workspaceEntries as [|entry es IH]; cbn [searchWorkspaceStores];
    [reflexivity|].
  rewrite (searchWorkspaceStore_query_case _ _ _ _ _ _ Hq), IH. reflexivity.
Qed.

(** X24. The response does not depend on the case of the letters of the
    query: two requests with the same scope whose queries differ only in
    case get the same response, snippets included, and cause the same
    events. *)
Theorem GET_case_insensitive (w : World) (request request' : Request) :
  toLowerCase (queryOf request') = toLowerCase (queryOf request) →
  scopeOf request' = scopeOf request →
  GET w request' = GET w request.
Proof.
  intros Hq Hty. unfold GET. cbv zeta. rewrite Hty, Hq.
  assert (Hne : nonEmpty (queryOf request') = nonEmpty (queryOf request)).
  { pose proof (toLowerCase_same_length _ _ Hq) as Hlen.
    destruct (queryOf request'), (queryOf request); try reflexivity; discriminate Hlen. }
  rewrite Hne. destruct (negb (nonEmpty (queryOf request))); [reflexivity|].
  destruct (scanWorkspaces w) as [workspaceEntries|]; [|reflexivity].
  unfold collectResults.
  rewrite (searchWorkspaceStores_query_case _ _ _ _ _ _ Hq).
  destruct (w_globalStore w) as [g|]; [|reflexivity].
  rewrite (searchGlobalStorage_query_case _ _ _ _ _ _ _ _ Hq). reflexivity.
Qed.

(** ** The stores that are opened *)

Lemma searchWorkspaceStores_opens w ty query queryLower workspaceEntries e :
  In e (snd (searchWorkspaceStores w ty query queryLower workspaceEntries)) →
  ∃ entry db, In entry workspaceEntries ∧ w_store w (name entry) = Some db ∧
              s_opens db = true ∧
              (e = EvOpen (WorkspaceDb (name entry)) ∨ e = EvClose (WorkspaceDb (name entry))).
Proof.
  induction workspaceEntries as [|entry es IH]; cbn [searchWorkspaceStores]; [intros []|].
  pose proof (searchWorkspaceStore_events w ty query queryLower entry) as He.
  destruct (searchWorkspaceStore _ _ _ _ entry) as [r1 e1].
  destruct (searchWorkspaceStores _ _ _ _ es) as [r2 e2]. cbn [snd] in *.
  rewrite in_app_iff. intros [Hin|Hin].
  - rewrite He in Hin. destruct (w_store w (name entry)) as [db|] eqn:Hdb; [|destruct Hin].
    destruct (s_opens db) eqn:Hopen; [|destruct Hin].
    exists entry, db. split; [left; reflexivity|]. split; [exact Hdb|]. split; [exact Hopen|].
    destruct (if wants ty "chat" then s_chatData db else Ret None);
      [destruct (if wants ty "composer" then s_composerData db else Ret None)|];
      cbn [In] in Hin; intuition auto.
  - destruct (IH Hin) as (entry' & db & Hentry & H). exists entry', db.
    split; [right; exact Hentry | exact H].
Qed.

(** X25. The handler opens no other store than the unified store and the
    stores of the workspaces of the scan: a store that is opened belongs
    to a directory of the listing that has a descriptor file. It lists
    the workspace root once, before anything else. *)
Theorem GET_opens_scanned_stores (w : World) (request : Request) (n : string) :
  In (EvOpen (WorkspaceDb n)) (snd (GET w request)) →
  (∃ dirents d db,
     w_readdir w = Ret dirents ∧ In d dirents ∧ d_name d = n ∧ hasDescriptor w d = true ∧
     w_store w n = Some db ∧ s_opens db = true) ∧
  ∃ events, snd (GET w request) = EvReaddir :: events ∧ ¬ In EvReaddir events.
Proof.
  unfold GET. cbv zeta. destruct (negb (nonEmpty (queryOf request))); [intros []|].
  destruct (scanWorkspaces w) as [workspaceEntries|] eqn:Hscan;
    [|intros [H|[]]; discriminate H].
  destruct (collectResults _ _ _ _ _) as [found events] eqn:E. cbn [snd].
  assert (Hev : events = snd (collectResults w (scopeOf request) (queryOf request)
                                (toLowerCase (queryOf request)) workspaceEntries))
    by (rewrite E; reflexivity).
  clear E. unfold collectResults in Hev.
  pose proof (searchWorkspaceStores_opens w (scopeOf request) (queryOf request)
                (toLowerCase (queryOf request)) workspaceEntries) as Hlegacy.
  destruct (searchWorkspaceStores _ _ _ _ workspaceEntries) as [r2 e2]. cbn [snd] in Hlegacy.
  assert (Hglobal : ∃ e1, events = e1 ++ e2 ∧
                          ∀ e, In e e1 → e = EvOpen GlobalDb ∨ e = EvClose GlobalDb).
  { destruct (w_globalStore w) as [g|].
    - pose proof (searchGlobalStorage_events g (scopeOf request) (w_now w) (queryOf request)
                    (toLowerCase (queryOf request))
                    (buildProjectNameToWorkspaceId workspaceEntries) workspaceEntries) as Hg.
      destruct (searchGlobalStorage _ _ _ _ _ _ _) as [r1 e1]. cbn [snd] in *.
      exists e1. split; [exact Hev|]. rewrite Hg. destruct (g_opens g); cbn [In]; intuition auto.
    - exists []. split; [exact Hev | intros e []]. }
  destruct Hglobal as (e1 & -> & He1). clear Hev.
  intros [H|Hin]; [discriminate H|]. split.
  - apply in_app_iff in Hin as [Hin|Hin]; [destruct (He1 _ Hin); discriminate|].
    destruct (Hlegacy _ Hin) as (entry & db & Hentry & Hdb & Hopen & [[= Hn]|[=]]).
    subst n. unfold scanWorkspaces in Hscan.
    destruct (w_readdir w) as [dirents|]; cbn [bind] in Hscan; [|discriminate].
    pose proof (checkedEntries_names _ _ Hscan) as Hnames.
    rewrite readWorkspaceEntries_names in Hnames.
    assert (Hname : In (name entry) (map name workspaceEntries)) by (apply in_map, Hentry).
    rewrite Hnames in Hname. apply in_map_iff in Hname as (d & Hd & Hin').
    apply filter_In in Hin' as [Hin' Hdesc].
    exists dirents, d, db. auto 10.
  - exists (e1 ++ e2). split; [reflexivity|]. rewrite in_app_iff. intros [H|H].
    + destruct (He1 _ H); discriminate.
    + destruct (Hlegacy _ H) as (entry & db & _ & _ & _ & [?|?]); discriminate.
Qed.

End Search.

(** * The properties on the example data *)

(** ** C1: matching order *)


(** The second tab matches in its bubble; in the agent conversation the
    title is searched before the referenced bubble. *)
Example matchConversation_bubble :
  matchConversation sample_JSON_parse LegacyAsk sample_tab2 "refactor" =
    Ret (Some "Can you refactor the scheduler loop?") ∧
  matchConversation sample_JSON_parse
    (UnifiedAgent (VStr "c1") {["b1" := sample_bubble]}) sample_conversation "PARSER" =
    Ret (Some "Parser work") ∧
  matchConversation sample_JSON_parse
    (UnifiedAgent (VStr "c1") {["b1" := sample_bubble]}) sample_conversation "Refactor" =
    Ret (Some "We should refactor the parser").
Proof. repeat split; vm_compute; reflexivity. Qed.

(** ** C2: project resolution *)



(** ** C3 and C4: deduplication and ranking *)

Lemma GET_deduplicates_witness :
  (GET sample_JSON_parse sample_Date_parse sample_StringToNumber sample_world
     sample_request).1 = json None (Some sample_results) 200 ∧
  distinctChatIds sample_results ∧
  ∀ r, In r sample_results →
    firstOccurrence
      (foundResults sample_JSON_parse sample_StringToNumber sample_world sample_request
         sample_entries) r.
Proof.
  assert (Hok : (GET sample_JSON_parse sample_Date_parse sample_StringToNumber sample_world
                   sample_request).1 = json None (Some sample_results) 200)
    by (vm_compute; reflexivity).
  split; [exact Hok|].
  destruct (GET_deduplicates sample_JSON_parse sample_Date_parse sample_StringToNumber
              sample_world sample_request sample_results Hok)
    as (dirents & es & agent & ask & _ & Hscan & _ & _ & _ & _ & Hfound & Hdistinct & Hfirst & _).
  assert (Hes : es = sample_entries).
  { assert (Hs : scanWorkspaces sample_JSON_parse sample_world = Ret sample_entries)
      by (vm_compute; reflexivity).
    rewrite Hs in Hscan. injection Hscan as <-. reflexivity. }
  subst es. split; [exact Hdistinct|].
  intros r Hr. rewrite Hfound. apply Hfirst, Hr.
Defined.

(** The tab [t1] is found in the unified store and again in the store of
    [ws1]; the first one, from the unified store, is kept. *)
Example GET_keeps_first_duplicate :
  map (fun r => (chatId r, workspaceId r))
    (foundResults sample_JSON_parse sample_StringToNumber sample_world sample_request
       sample_entries) =
    [(VStr "c1", "ws1"); (VStr "t1", "global"); (VStr "t1", "ws1"); (VStr "t2", "ws1")] ∧
  map (fun r => (chatId r, workspaceId r)) sample_results =
    [(VStr "t2", "ws1"); (VStr "c1", "ws1"); (VStr "t1", "global")].
Proof. split; vm_compute; reflexivity. Qed.

Lemma GET_sorted_by_recency_witness :
  (GET sample_JSON_parse sample_Date_parse sample_StringToNumber sample_world
     sample_request).1 = json None (Some sample_results) 200 ∧
  sortedByRecency sample_Date_parse sample_results.
Proof.
  assert (Hok : (GET sample_JSON_parse sample_Date_parse sample_StringToNumber sample_world
                   sample_request).1 = json None (Some sample_results) 200)
    by (vm_compute; reflexivity).
  split; [exact Hok|].
  apply (GET_sorted_by_recency sample_JSON_parse sample_Date_parse sample_StringToNumber
           sample_world sample_request sample_results Hok).
  intros r [<-|[<-|[<-|[]]]]; vm_compute; discriminate.
Defined.

(** C4 as stated fails: a tab whose timestamp is the string [soon] comes
    first in the response, before a tab stamped 200; the first is not at
    least as recent as the second. *)
Lemma GET_unparsable_timestamp_counterexample :
  (GET sample_JSON_parse sample_Date_parse sample_StringToNumber sample_undated_world
     sample_request).1 = json None (Some sample_undated_results) 200 ∧
  ¬ sortedByRecency sample_Date_parse sample_undated_results.
Proof.
  split; [vm_compute; reflexivity|].
  intros Hsorted.
  exact (Hsorted O _ _ eq_refl eq_refl).
Qed.

(** ** C5: text extraction *)

Lemma extractTextFromBubble_precedence_witness :
  extractTextFromBubble sample_JSON_parse sample_richBubble = Ret "ABC".
Proof.
  assert (Ht : getp sample_richBubble "text" = Ret (VStr "  ")) by reflexivity.
  assert (Hr : getp sample_richBubble "richText" =
               Ret (VStr (stringify sample_richDocument))) by reflexivity.
  destruct (extractTextFromBubble_precedence sample_JSON_parse sample_richBubble _ _ Ht Hr
              (or_intror (ex_intro _ "  " eq_refl))) as (_ & _ & Hblank).
  destruct Hblank as [Hrich _].
  { right. exists "  ". split; reflexivity. }
  eapply (Hrich sample_richDocument _ _
            [Container [Leaf "A"; Container [Leaf "B"]]; Leaf "C"]).
  - reflexivity.
  - vm_compute. reflexivity.
  - reflexivity.
  - reflexivity.
  - repeat match goal with
           | |- Forall2 _ _ _ => constructor
           | |- represents _ (Leaf _) =>
               apply represents_leaf; [reflexivity|reflexivity|left; reflexivity]
           | |- represents _ (Container _) =>
               eapply represents_container; [reflexivity|reflexivity|]
           end.
Defined.

(** C5 as stated fails: a text of one space is not empty, and it is not
    returned; the bubble has no rich text, so the result is the empty
    string. When a bubble with a text of two spaces has rich text, the
    rich text is returned. *)
Lemma blank_text_counterexample :
  getp (VObj [("text", VStr " ")]) "text" = Ret (VStr " ") ∧
  nonEmpty " " = true ∧
  extractTextFromBubble sample_JSON_parse (VObj [("text", VStr " ")]) = Ret "" ∧
  getp sample_richBubble "text" = Ret (VStr "  ") ∧
  extractTextFromBubble sample_JSON_parse sample_richBubble = Ret "ABC".
Proof. repeat split; vm_compute; reflexivity. Qed.

(** A [text] that is not a string makes [trim] throw. *)
Example extractTextFromBubble_throws :
  extractTextFromBubble sample_JSON_parse (VObj [("text", VNum 5)]) = Throw.
Proof. reflexivity. Qed.

(** ** C6: snippet window *)

(** The text has 300 characters and the match starts at offset 200: the
    snippet starts with the marker and holds the 150 characters from
    offset 150 to the end of the text. *)
Lemma snippet_window_witness :
  includes (toLowerCase sample_long_text) (toLowerCase "scheduler") = true ∧
  snippet sample_long_text "scheduler" (toLowerCase "scheduler") =
    "..." +:+ String.substring 150 150 sample_long_text.
Proof.
  assert (H : includes (toLowerCase sample_long_text) (toLowerCase "scheduler") = true)
    by (vm_compute; reflexivity).
  split; [exact H|].
  destruct (snippet_window sample_long_text "scheduler" H) as (i & Hi & _ & _ & _ & Hs).
  assert (Hidx : indexOf (toLowerCase sample_long_text) (toLowerCase "scheduler") = 200)
    by (vm_compute; reflexivity).
  rewrite Hidx in Hi. assert (i = 200%nat) as -> by lia.
  rewrite Hs. vm_compute. reflexivity.
Defined.

(** A text that goes on after the window gets the marker at both ends. *)
Example snippet_both_markers :
  snippet (sample_long_text +:+ replicate_char 20 "c") "scheduler" "scheduler" =
    "..." +:+ String.substring 150 150 sample_long_text +:+ replicate_char 9 "c" +:+ "...".
Proof. vm_compute. reflexivity. Qed.

(** ** C7: failure isolation *)


(** One malformed row among ten: the nine others give nine results. *)
Example nine_of_ten_rows :
  length sample_ten_rows = 10%nat ∧
  map chatId
    (searchComposerRows sample_JSON_parse sample_StringToNumber "2024-06-01T12:00:00.000Z"
       "fix" "fix" ∅ (buildProjectNameToWorkspaceId sample_entries) sample_entries ∅
       sample_ten_rows) =
  [VStr "fix1"; VStr "fix2"; VStr "fix3"; VStr "fix5"; VStr "fix6"; VStr "fix7";
   VStr "fix8"; VStr "fix9"; VStr "fix10"].
Proof. split; vm_compute; reflexivity. Qed.

(** ** C8: store handles *)

(** C8 (defect of the handler). The store of [ws1] opens and its first
    query throws: the [catch] block of the legacy loop does not close the
    handle, so the handler opens the store of [ws2] while the handle of
    [ws1] is open, and never closes that handle. *)
Lemma legacy_handle_left_open :
  (GET sample_JSON_parse sample_Date_parse sample_StringToNumber sample_failing_world
     sample_request).2 =
    [EvReaddir; EvOpen (WorkspaceDb "ws1"); EvOpen (WorkspaceDb "ws2");
     EvClose (WorkspaceDb "ws2")] ∧
  releasesHandles []
    (GET sample_JSON_parse sample_Date_parse sample_StringToNumber sample_failing_world
       sample_request).2 = false.
Proof. split; vm_compute; reflexivity. Qed.

(** The unified store is closed on both paths; here one of its queries
    throws. *)
Example global_handle_closed :
  (searchGlobalStorage sample_JSON_parse sample_StringToNumber
     {| g_opens := true; g_bubbleRows := Throw; g_contextRows := Ret [];
        g_composerRows := Ret []; g_chatData := Ret None |}
     "all" "2024-06-01T12:00:00.000Z" "refactor" "refactor" ∅ []).2 =
  [EvOpen GlobalDb; EvClose GlobalDb].
Proof. reflexivity. Qed.

(** ** C9: missing query *)

Lemma GET_requires_query_witness :
  GET sample_JSON_parse sample_Date_parse sample_StringToNumber sample_world
    {| q := Some ""; type_param := None |} =
    (json (Some "No search query provided") None 400, []) ∧
  status (GET sample_JSON_parse sample_Date_parse sample_StringToNumber sample_world
            sample_request).1 ≠ 400.
Proof.
  split.
  - apply (GET_requires_query sample_JSON_parse sample_Date_parse sample_StringToNumber
             sample_world {| q := Some ""; type_param := None |}).
    right. reflexivity.
  - apply (GET_requires_query sample_JSON_parse sample_Date_parse sample_StringToNumber
             sample_world sample_request) with (query := "refactor");
      [reflexivity|discriminate].
Defined.

(** ** C10: ask results of the unified store *)

Lemma unified_ask_results_global_witness :
  In sample_global_result
    (searchGlobalStorage sample_JSON_parse sample_StringToNumber sample_globalStore "all"
       "2024-06-01T12:00:00.000Z" "refactor" (toLowerCase "refactor")
       (buildProjectNameToWorkspaceId sample_entries) sample_entries).1 ∧
  workspaceId sample_global_result = "global" ∧
  workspaceFolder sample_global_result = None.
Proof.
  assert (Hin : In sample_global_result
                  (searchGlobalStorage sample_JSON_parse sample_StringToNumber
                     sample_globalStore "all" "2024-06-01T12:00:00.000Z" "refactor"
                     (toLowerCase "refactor")
                     (buildProjectNameToWorkspaceId sample_entries) sample_entries).1)
    by (vm_compute; right; left; reflexivity).
  split; [exact Hin|].
  destruct (unified_ask_results_global sample_JSON_parse sample_StringToNumber
              sample_globalStore "all" "2024-06-01T12:00:00.000Z" "refactor"
              (buildProjectNameToWorkspaceId sample_entries) sample_entries
              sample_global_result Hin eq_refl) as (H1 & H2 & _).
  split; assumption.
Defined.

(** ** Further properties on the example data *)


(** With the filter [chat] the agent conversation [c1] is no longer
    among the results. *)
Lemma GET_scope_filter_witness :
  results (GET sample_JSON_parse sample_Date_parse sample_StringToNumber sample_world
             sample_chat_request).1 = Some [sample_workspace_result; sample_global_result] ∧
  ∀ r, In r [sample_workspace_result; sample_global_result] → type r = chat.
Proof.
  assert (Hrs : results (GET sample_JSON_parse sample_Date_parse sample_StringToNumber
                           sample_world sample_chat_request).1
                = Some [sample_workspace_result; sample_global_result])
    by (vm_compute; reflexivity).
  split; [exact Hrs|].
  exact (proj1 (GET_scope_filter sample_JSON_parse sample_Date_parse sample_StringToNumber
                  sample_world sample_chat_request _ Hrs) eq_refl).
Defined.

Lemma GET_results_complete_witness :
  chatTitle sample_global_result ≠ "" ∧ truthy (timestamp sample_global_result) = true ∧
  matchingText sample_global_result ≠ "".
Proof.
  apply (GET_results_complete sample_JSON_parse sample_Date_parse sample_StringToNumber
           sample_world sample_request sample_results sample_global_result).
  - discriminate.
  - vm_compute. reflexivity.
  - right. right. left. reflexivity.
Defined.

(** A text of 300 characters is shown with 103. *)
Lemma truncateText_length_witness :
  Z.of_nat (String.length (truncateText sample_long_text 100)) = 103.
Proof.
  assert (Hmax : 0 ≤ 100) by lia.
  exact (proj1 (truncateText_length sample_long_text 100 Hmax)).
Defined.


(** The file lies in the folder of the second workspace only. *)
Lemma getProjectFromFilePath_first_match_witness :
  getProjectFromFilePath (VStr "/home/u/beta/new.ts") sample_entries = Ret (Some "ws2") ∧
  getProjectFromFilePath (VNum 5) sample_entries = Throw.
Proof.
  destruct (getProjectFromFilePath_first_match "/home/u/beta/new.ts" sample_entries)
    as (Hfirst & _ & Hthrow).
  split.
  - apply Hfirst.
    exists [ {| name := "ws1"; folder := "file:///home/u/alpha" |} ],
           {| name := "ws2"; folder := "file:///home/u/beta" |}, [].
    repeat split; try reflexivity. repeat constructor.
  - apply Hthrow. intros s. discriminate.
Defined.

Lemma getProjectFromFilePath_below_folder_witness :
  getProjectFromFilePath (VStr ("file://" +:+ ("/home/u/beta" +:+ "/new.ts"))) sample_entries =
  getProjectFromFilePath (VStr ("/home/u/beta" +:+ "/new.ts")) sample_entries.
Proof.
  apply (getProjectFromFilePath_below_folder sample_entries
           {| name := "ws2"; folder := "file:///home/u/beta" |} "/home/u/beta" "/new.ts").
  - right. left. reflexivity.
  - reflexivity.
  - vm_compute. reflexivity.
Defined.





(** The workspace [ws3], whose descriptor is not JSON, is kept with an
    empty folder. *)
Lemma scanWorkspaces_keeps_workspace_witness :
  scanWorkspaces sample_JSON_parse sample_broken_world =
    Ret [ {| name := "ws1"; folder := "file:///home/u/alpha" |};
          {| name := "ws3"; folder := "" |} ] ∧
  In {| name := "ws3"; folder := "" |}
     [ {| name := "ws1"; folder := "file:///home/u/alpha" |};
       {| name := "ws3"; folder := "" |} ].
Proof.
  assert (Hscan : scanWorkspaces sample_JSON_parse sample_broken_world =
                  Ret [ {| name := "ws1"; folder := "file:///home/u/alpha" |};
                        {| name := "ws3"; folder := "" |} ])
    by (vm_compute; reflexivity).
  split; [exact Hscan|].
  apply (scanWorkspaces_keeps_workspace sample_JSON_parse sample_broken_world _ _
           {| d_name := "ws3"; d_isDirectory := true |} eq_refl Hscan).
  - right. left. reflexivity.
  - reflexivity.
  - right. exists "{not json". split; reflexivity.
Defined.


Lemma removeDuplicates_idempotent_witness :
  removeDuplicates sample_results = sample_results.
Proof.
  assert (Hdistinct : pairwiseDistinct sample_results) by (repeat split; repeat constructor).
  exact (proj1 (removeDuplicates_idempotent sample_results) Hdistinct).
Defined.

Lemma GET_ranking_reorders_witness :
  ∃ workspaceEntries,
    scanWorkspaces sample_JSON_parse sample_world = Ret workspaceEntries ∧
    length sample_results =
    length (removeDuplicates
              (foundResults sample_JSON_parse sample_StringToNumber sample_world
                 sample_request workspaceEntries)).
Proof.
  assert (Hok : (GET sample_JSON_parse sample_Date_parse sample_StringToNumber sample_world
                   sample_request).1 = json None (Some sample_results) 200)
    by (vm_compute; reflexivity).
  destruct (GET_ranking_reorders sample_JSON_parse sample_Date_parse sample_StringToNumber
              sample_world sample_request sample_results Hok) as (es & Hscan & _ & Hlen & _).
  exists es. split; [exact Hscan | exact Hlen].
Defined.

(** The second tab is [null]: the first tab is found, the third is not
    searched, although it matches. *)
Lemma searchChatData_stops_at_throw_witness :
  searchChatData sample_JSON_parse_damaged "ws1" None "2024-06-01T12:00:00.000Z"
    "scheduler" "scheduler" (Some (stringify sample_damagedChat)) = [] ∧
  searchTab "ws1" None "2024-06-01T12:00:00.000Z" "scheduler" "scheduler" sample_tab2 ≠ Ret None.
Proof.
  destruct (searchChatData_stops_at_throw sample_JSON_parse_damaged "ws1" None
              "2024-06-01T12:00:00.000Z" "scheduler" "scheduler"
              (stringify sample_damagedChat) sample_damagedChat
              [sample_tab1] [sample_tab2] VNull) as [Hstop Hthrow].
  - vm_compute. discriminate.
  - vm_compute. reflexivity.
  - reflexivity.
  - split.
    + rewrite Hstop; [vm_compute; reflexivity|]. apply Hthrow. left. reflexivity.
    + vm_compute. discriminate.
Defined.

(** The leaf [A] is lost with the [null] that follows it. *)
Lemma extractTextFromBubble_null_node_witness :
  extractTextFromBubble sample_JSON_parse_damaged
    (VObj [("richText", VStr (stringify sample_nullDocument))]) = Ret "".
Proof.
  apply (extractTextFromBubble_null_node sample_JSON_parse_damaged
           (VObj [("richText", VStr (stringify sample_nullDocument))])
           VUndef (VStr (stringify sample_nullDocument)) sample_nullDocument
           (VObj [("children", VArr [VObj [("type", VStr "text"); ("text", VStr "A")]; VNull])])
           [VObj [("type", VStr "text"); ("text", VStr "A")]; VNull]).
  - reflexivity.
  - reflexivity.
  - reflexivity.
  - vm_compute. reflexivity.
  - reflexivity.
  - reflexivity.
  - right. left. reflexivity.
Defined.

(** Three results; down, down, down, up: the second result is
    highlighted. *)
Lemma handleKeyDown_selection_witness :
  selectedAfter sample_results 0 [ArrowDown; ArrowDown; ArrowDown; ArrowUp] = 1 ∧
  0 ≤ selectedAfter sample_results 0 [ArrowDown; ArrowDown; ArrowDown; ArrowUp]
    < Z.of_nat (length sample_results).
Proof.
  split; [reflexivity|].
  apply (handleKeyDown_selection sample_results 0 [ArrowDown; ArrowDown; ArrowDown; ArrowUp]).
  simpl. lia.
Defined.

Lemma searchEffect_request_accepted_witness :
  searchEffect "refactor" AskLogs = Some sample_chat_request ∧
  status (GET sample_JSON_parse sample_Date_parse sample_StringToNumber sample_world
            sample_chat_request).1 ≠ 400 ∧
  searchEffect "   " AskLogs = None.
Proof.
  destruct (searchEffect_request_accepted sample_JSON_parse sample_Date_parse
              sample_StringToNumber sample_world "refactor" AskLogs) as [_ Hsent].
  destruct (searchEffect_request_accepted sample_JSON_parse sample_Date_parse
              sample_StringToNumber sample_world "   " AskLogs) as [Hblank _].
  assert (Hreq : searchEffect "refactor" AskLogs = Some sample_chat_request)
    by (vm_compute; reflexivity).
  split; [exact Hreq|]. split.
  - exact (proj1 (proj2 (proj2 (Hsent _ Hreq)))).
  - apply Hblank. vm_compute. reflexivity.
Defined.

Lemma workspaceLabel_last_segment_witness :
  workspaceLabel sample_workspace_result = FolderLabel "alpha" ∧
  indexKey {| name := "ws1"; folder := "file:///home/u/alpha" |} = Some "alpha".
Proof.
  destruct (workspaceLabel_last_segment sample_workspace_result "/home/u/alpha")
    as [Hlabel Hkey].
  - discriminate.
  - reflexivity.
  - split; [exact Hlabel|]. apply Hkey; [discriminate | reflexivity].
Defined.

(** In the sample world the store of [ws1] answers both queries and the
    store of [ws2] does not open: every handle is released. *)
Lemma GET_releases_handles_when_queries_succeed_witness :
  releasesHandles []
    (GET sample_JSON_parse sample_Date_parse sample_StringToNumber sample_world
       sample_request).2 = true.
Proof.
  apply GET_releases_handles_when_queries_succeed.
  intros n db Hdb Hopen. cbn [sample_world w_store] in Hdb.
  destruct (String.eqb n "ws1").
  - injection Hdb as <-. split; discriminate.
  - destruct (String.eqb n "ws2"); [|discriminate].
    injection Hdb as <-. discriminate Hopen.
Defined.

Lemma GET_case_insensitive_witness :
  GET sample_JSON_parse sample_Date_parse sample_StringToNumber sample_world
    {| q := Some "REFACTOR"; type_param := None |} =
  GET sample_JSON_parse sample_Date_parse sample_StringToNumber sample_world sample_request.
Proof.
  apply GET_case_insensitive; reflexivity.
Defined.

(** The store of [ws1] is opened; [ws1] is a directory of the listing
    with a descriptor. *)
Lemma GET_opens_scanned_stores_witness :
  In (EvOpen (WorkspaceDb "ws1"))
     (GET sample_JSON_parse sample_Date_parse sample_StringToNumber sample_world
        sample_request).2 ∧
  ∃ dirents d db,
    w_readdir sample_world = Ret dirents ∧ In d dirents ∧ d_name d = "ws1" ∧
    hasDescriptor sample_world d = true ∧
    w_store sample_world "ws1" = Some db ∧ s_opens db = true.
Proof.
  assert (Hin : In (EvOpen (WorkspaceDb "ws1"))
                   (GET sample_JSON_parse sample_Date_parse sample_StringToNumber sample_world
                      sample_request).2)
    by (vm_compute; right; right; right; left; reflexivity).
  split; [exact Hin|].
  exact (proj1 (GET_opens_scanned_stores sample_JSON_parse sample_Date_parse
                  sample_StringToNumber sample_world sample_request "ws1" Hin)).
Defined.
